(** * Protocol negotiation of rsync's [compat.c]

    A shallow embedding of [check_sub_protocol] and [setup_protocol]
    (src/compat.c) together with the properties of the negotiation that the
    specification states about them.

    The C globals live in a store indexed by their names, the two file
    descriptors and the message stream are explicit parts of the state, and
    the two functions are written in a small state-and-exit monad so that the
    model can be read next to the C text. *)

From Stdlib Require Import ZArith String Ascii List Bool Lia.
Import ListNotations.
Local Open Scope string_scope.
Local Open Scope Z_scope.

(* ================================================================== *)
(** ** C integers *)

(** [int] is 32 bits wide.  Values are kept as [Z]; every arithmetic
    operation of the source that can leave the range is followed by
    [wrap_int], the two's complement wrap-around. *)
Definition int_min : Z := - 2 ^ 31.
Definition int_max : Z := 2 ^ 31 - 1.

Definition wrap_int (z : Z) : Z := (z + 2 ^ 31) mod 2 ^ 32 - 2 ^ 31.

Definition int_range (z : Z) : Prop := int_min <= z <= int_max.

(** C truth value of an [int] used as a condition. *)
Definition truthy (z : Z) : bool := negb (z =? 0).

(* ================================================================== *)
(** ** The two libc string functions used on [shell_cmd] *)

(** [isspace] in the C locale. *)
Definition isspace (c : ascii) : bool :=
  let n := N_of_ascii c in
  (n =? 32)%N || ((9 <=? n)%N && (n <=? 13)%N).

Definition isdigit (c : ascii) : bool :=
  let n := N_of_ascii c in
  (48 <=? n)%N && (n <=? 57)%N.

Definition digit_value (c : ascii) : Z := Z.of_N (N_of_ascii c) - 48.

Fixpoint skip_space (s : string) : string :=
  match s with
  | String c r => if isspace c then skip_space r else s
  | EmptyString => s
  end.

(** The value of the longest prefix of decimal digits, [acc] being the value
    of the digits already consumed. *)
Fixpoint digits (acc : Z) (s : string) : Z :=
  match s with
  | String c r => if isdigit c then digits (acc * 10 + digit_value c) r else acc
  | EmptyString => acc
  end.

(** [atoi]: optional white space, optional sign, decimal digits; [0] when no
    digit is found.  A value that does not fit an [int] is truncated to 32
    bits. *)
Definition atoi (s : string) : Z :=
  match skip_space s with
  | String "-"%char r => wrap_int (- digits 0 r)
  | String "+"%char r => wrap_int (digits 0 r)
  | r => wrap_int (digits 0 r)
  end.

(** [strchr s c]: the suffix of [s] that starts at the first [c], or [None]
    for the null pointer. *)
Fixpoint strchr (s : string) (c : ascii) : option string :=
  match s with
  | String a r => if Ascii.eqb a c then Some s else strchr r c
  | EmptyString => None
  end.

(** [p + 1] for a pointer [p] into a string. *)
Definition next_char (p : string) : string :=
  match p with
  | String _ r => r
  | EmptyString => EmptyString
  end.

(** [*p] for a pointer [p] into a string; the terminator of the empty
    string is the NUL character. *)
Definition deref (p : string) : ascii :=
  match p with
  | String c _ => c
  | EmptyString => zero
  end.

(* ================================================================== *)
(** ** Global variables *)

(** The [int] globals that [compat.c] defines (lines 24-26 and 62) or
    declares [extern] and uses (lines 28-52).  [delete_excluded] and
    [make_backups] are declared but never used in the file. *)
Inductive var : Set :=
  | remote_protocol | file_extra_cnt | inc_recurse
  | verbose | am_server | am_sender | local_server | inplace | recurse
  | use_qsort | allow_inc_recurse | relative_paths | fuzzy_basis
  | read_batch | max_delete | implied_dirs | delay_updates | checksum_seed
  | basis_dir_cnt | prune_empty_dirs | protocol_version
  | preserve_uid | preserve_gid | preserve_acls | preserve_xattrs
  | preserve_hard_links | need_messages_from_generator
  | delete_mode | delete_before | delete_during | delete_after
  | uid_ndx | gid_ndx | acls_ndx | xattrs_ndx.

Definition var_index (x : var) : positive :=
  match x with
  | remote_protocol => 1 | file_extra_cnt => 2 | inc_recurse => 3
  | verbose => 4 | am_server => 5 | am_sender => 6 | local_server => 7
  | inplace => 8 | recurse => 9 | use_qsort => 10
  | allow_inc_recurse => 11 | relative_paths => 12 | fuzzy_basis => 13
  | read_batch => 14 | max_delete => 15 | implied_dirs => 16
  | delay_updates => 17 | checksum_seed => 18 | basis_dir_cnt => 19
  | prune_empty_dirs => 20 | protocol_version => 21
  | preserve_uid => 22 | preserve_gid => 23 | preserve_acls => 24
  | preserve_xattrs => 25 | preserve_hard_links => 26
  | need_messages_from_generator => 27
  | delete_mode => 28 | delete_before => 29 | delete_during => 30
  | delete_after => 31
  | uid_ndx => 32 | gid_ndx => 33 | acls_ndx => 34 | xattrs_ndx => 35
  end%positive.

Definition var_eqb (x y : var) : bool := Pos.eqb (var_index x) (var_index y).

(** Message classes of [rprintf]. *)
Inductive logcode : Set := FERROR | FINFO.

(** An argument of a [printf]-style call: an [int] for [%d], a [char *]
    (possibly null) for [%s]. *)
Inductive arg : Set :=
  | AInt (n : Z)
  | AStr (p : option string).

(** One call of [rprintf]: class, format string and arguments. *)
Record message : Set := Message {
  msg_code : logcode;
  msg_format : string;
  msg_args : list arg
}.

(** Modelled from the spec: [parse_rule] (exclude.c) is outside compat.c;
    the specification describes it as an insertion call
    [register(pattern, flags, priority)] into the external rule list.  A rule
    is the triple of arguments that the call received, and the rule list is
    the sequence of the calls made. *)
Record filter_rule : Set := Rule {
  rule_pattern : string;
  rule_mflags : Z;
  rule_xflags : Z
}.

(** The program state seen by [compat.c]. *)
Record state : Type := State {
  ints : var -> Z;                 (* the int globals *)
  shell_cmd : option string;       (* char *shell_cmd, line 55 *)
  partial_dir : option string;     (* char *partial_dir, line 57 *)
  dest_option : option string;     (* char *dest_option, line 58 *)
  filter_list : list filter_rule;  (* the calls of parse_rule, in order *)
  sent : list (Z * Z);             (* (fd, value) of each write_int, in order *)
  writable : bool;                 (* whether a write_int goes through *)
  pending : list Z;                (* the ints that read_int will deliver *)
  clock : Z;                       (* what time(NULL) returns *)
  log : list message               (* the rprintf calls, in order *)
}.

Declare Scope c_scope.
Delimit Scope c_scope with c.
Notation "s .[ x ]" := (ints s x) (at level 1, left associativity, format "s .[ x ]").

Definition set_int (x : var) (v : Z) (s : state) : state :=
  State (fun y => if var_eqb y x then v else s.[y])
        (shell_cmd s) (partial_dir s) (dest_option s) (filter_list s)
        (sent s) (writable s) (pending s) (clock s) (log s).

Definition set_filter_list (l : list filter_rule) (s : state) : state :=
  State (ints s) (shell_cmd s) (partial_dir s) (dest_option s) l
        (sent s) (writable s) (pending s) (clock s) (log s).

Definition set_sent (l : list (Z * Z)) (s : state) : state :=
  State (ints s) (shell_cmd s) (partial_dir s) (dest_option s) (filter_list s)
        l (writable s) (pending s) (clock s) (log s).

Definition set_pending (l : list Z) (s : state) : state :=
  State (ints s) (shell_cmd s) (partial_dir s) (dest_option s) (filter_list s)
        (sent s) (writable s) l (clock s) (log s).

Definition set_log (l : list message) (s : state) : state :=
  State (ints s) (shell_cmd s) (partial_dir s) (dest_option s) (filter_list s)
        (sent s) (writable s) (pending s) (clock s) l.

(* ================================================================== *)
(** ** A monad for statements: state, and exit from the process *)

(** A statement either runs to its end with a value, or the process leaves
    through [exit_cleanup] with an exit code.  Both carry the state reached. *)
Inductive outcome (A : Type) : Type :=
  | Ret (a : A) (s : state)
  | Exit (code : Z) (s : state).
Arguments Ret {A} a s.
Arguments Exit {A} code s.

Definition M (A : Type) : Type := state -> outcome A.

Definition ret {A} (a : A) : M A := fun s => Ret a s.

Definition bind {A B} (m : M A) (k : A -> M B) : M B :=
  fun s =>
    match m s with
    | Ret a s1 => k a s1
    | Exit c s1 => Exit c s1
    end.

Notation "x <- m ;; k" := (bind m (fun x => k))
  (at level 61, m at next level, right associativity) : c_scope.
Notation "m ;; k" := (bind m (fun _ => k))
  (at level 61, right associativity) : c_scope.
Local Open Scope c_scope.

(** The state in which a run ended, whichever way it ended. *)
Definition final {A} (o : outcome A) : state :=
  match o with
  | Ret _ s => s
  | Exit _ s => s
  end.

Definition returned {A} (o : outcome A) : bool :=
  match o with
  | Ret _ _ => true
  | Exit _ _ => false
  end.

Definition exit_code {A} (o : outcome A) : option Z :=
  match o with
  | Ret _ _ => None
  | Exit c _ => Some c
  end.

(** Side-effect free C expressions are functions of the state. *)
Definition read (x : var) : M Z := fun s => Ret s.[x] s.

Definition assign (x : var) (e : state -> Z) : M unit :=
  fun s => Ret tt (set_int x (e s) s).

(** [x--] as a statement. *)
Definition decr (x : var) : M unit :=
  assign x (fun s => wrap_int (s.[x] - 1)).

(** [x++] as a statement. *)
Definition incr (x : var) : M unit :=
  assign x (fun s => wrap_int (s.[x] + 1)).

(** [++x] as an expression: increments and yields the new value. *)
Definition pre_incr (x : var) : M Z :=
  fun s => let v := wrap_int (s.[x] + 1) in Ret v (set_int x v s).

(** [if (c) t else e] and [if (c) t]. *)
Definition cond {A} (c : state -> bool) (t e : M A) : M A :=
  fun s => if c s then t s else e s.

Definition when (c : state -> bool) (t : M unit) : M unit :=
  cond c t (ret tt).

Definition rprintf (code : logcode) (format : string)
    (args : state -> list arg) : M unit :=
  fun s => Ret tt (set_log (log s ++ [Message code format (args s)]) s).

Definition exit_cleanup {A} (code : Z) : M A := fun s => Exit code s.

Definition LF : string := String (ascii_of_nat 10) EmptyString.

(** Modelled from the spec: [write_int] and [read_int] (io.c) are outside
    compat.c; the specification describes them as the abstract
    duplex channel [write_int(value)] / [read_int()], a failure of which is
    fatal.  A write records the descriptor and the value, and leaves the
    process with [io_code] when the channel does not take it; a read
    delivers the next pending value, and leaves the process with [io_code]
    when there is none. *)
Definition write_int (io_code : Z) (fd : Z) (e : state -> Z) : M unit :=
  fun s =>
    if writable s
    then Ret tt (set_sent (sent s ++ [(fd, e s)]) s)
    else Exit io_code s.

Definition read_int (io_code : Z) (fd : Z) : M Z :=
  fun s =>
    match pending s with
    | v :: rest => Ret v (set_pending rest s)
    | [] => Exit io_code s
    end.

(** Modelled from the spec: see [filter_rule].  The first argument of the
    C call, [&filter_list], is the one rule list of the state. *)
Definition parse_rule (pattern : string) (mflags xflags : Z) : M unit :=
  fun s => Ret tt (set_filter_list (filter_list s ++ [Rule pattern mflags xflags]) s).

(* ================================================================== *)
(** ** The code of compat.c *)

(** The constants that compat.c takes from rsync.h and errcode.h, under the
    names the source uses. *)
Class Header : Type := {
  PROTOCOL_VERSION : Z;
  SUBPROTOCOL_VERSION : Z;
  MIN_PROTOCOL_VERSION : Z;
  OLD_PROTOCOL_VERSION : Z;
  MAX_PROTOCOL_VERSION : Z;
  PTR_EXTRA_LEN : Z;
  MATCHFLG_NO_PREFIXES : Z;
  MATCHFLG_DIRECTORY : Z;
  MATCHFLG_PERISHABLE : Z;
  RERR_PROTOCOL : Z;
  RERR_STREAMIO : Z
}.

Section Compat.

Context {hdr : Header}.

(** Line 71: [our_sub], from the value of [protocol_version] on entry. *)
Definition our_sub_protocol (pv : Z) : Z :=
  if pv <? PROTOCOL_VERSION then 0 else SUBPROTOCOL_VERSION.

(** Lines 73-75: the condition of the first [if], with the assignments it
    makes on the way.  [None] when one of the four disjuncts holds, otherwise
    the values left in [their_protocol] and [their_sub]. *)
Definition parse_sub_protocol (cmd : option string) : option (Z * Z) :=
  match cmd with
  | None => None
  | Some str =>
      match strchr str "."%char with
      | None => None
      | Some dot =>
          let their_protocol := atoi str in
          if their_protocol =? 0 then None
          else
            let their_sub := atoi (next_char dot) in
            if their_sub =? 0 then None
            else Some (their_protocol, their_sub)
      end
  end.

(** Lines 81-90: what is done with the two numbers of the hint. *)
Definition compare_sub_protocol (our_sub their_protocol their_sub : Z) : M unit :=
  pv <- read protocol_version ;;
  if their_protocol <? pv then
    (if truthy their_sub
     then assign protocol_version (fun _ => wrap_int (their_protocol - 1))
     else ret tt)
  else
    let their_sub := if their_protocol >? pv then 0 else their_sub in
    if negb (their_sub =? our_sub)
    then decr protocol_version
    else ret tt.

(** Lines 67-91. *)
Definition check_sub_protocol : M unit :=
  pv <- read protocol_version ;;
  let our_sub := our_sub_protocol pv in
  fun s =>
    match parse_sub_protocol (shell_cmd s) with
    | None =>
        (if truthy our_sub then decr protocol_version else ret tt) s
    | Some (their_protocol, their_sub) =>
        compare_sub_protocol our_sub their_protocol their_sub s
    end.

(** Lines 95-106: the indexes into the file-list's extra-attribute array. *)
Definition allocate_extras : M unit :=
  cond (fun s => truthy s.[am_sender])
    (assign file_extra_cnt (fun s => wrap_int (s.[file_extra_cnt] + PTR_EXTRA_LEN)))
    (incr file_extra_cnt) ;;
  when (fun s => truthy s.[preserve_uid])
    (n <- pre_incr file_extra_cnt ;; assign uid_ndx (fun _ => n)) ;;
  when (fun s => truthy s.[preserve_gid])
    (n <- pre_incr file_extra_cnt ;; assign gid_ndx (fun _ => n)) ;;
  when (fun s => truthy s.[preserve_acls] && negb (truthy s.[am_sender]))
    (n <- pre_incr file_extra_cnt ;; assign acls_ndx (fun _ => n)) ;;
  when (fun s => truthy s.[preserve_xattrs])
    (n <- pre_incr file_extra_cnt ;; assign xattrs_ndx (fun _ => n)).

(** Lines 108-116: the exchange of the protocol numbers. *)
Definition exchange_versions (f_out f_in : Z) : M unit :=
  when (fun s => s.[remote_protocol] =? 0)
    (when (fun s => truthy s.[am_server] && negb (truthy s.[local_server]))
       check_sub_protocol ;;
     when (fun s => negb (truthy s.[read_batch]))
       (write_int RERR_STREAMIO f_out (fun s => s.[protocol_version])) ;;
     v <- read_int RERR_STREAMIO f_in ;;
     assign remote_protocol (fun _ => v) ;;
     when (fun s => s.[protocol_version] >? s.[remote_protocol])
       (assign protocol_version (fun s => s.[remote_protocol]))).

Definition role_name (s : state) (if_server if_client : string) : arg :=
  AStr (Some (if truthy s.[am_server] then if_server else if_client)).

(** The format string of lines 118-119. *)
Definition fmt_batch_too_new : string :=
  "The protocol version in the batch file is too new (%d > %d)." ++ LF.

(** Lines 117-146: the checks on the two protocol numbers. *)
Definition check_versions : M unit :=
  when (fun s => truthy s.[read_batch]
                 && (s.[remote_protocol] >? s.[protocol_version]))
    (rprintf FERROR fmt_batch_too_new
       (fun s => [AInt s.[remote_protocol]; AInt s.[protocol_version]]) ;;
     exit_cleanup RERR_PROTOCOL) ;;
  when (fun s => s.[verbose] >? 3)
    (rprintf FINFO
       ("(%s) Protocol versions: remote=%d, negotiated=%d" ++ LF)
       (fun s => [role_name s "Server" "Client";
                  AInt s.[remote_protocol]; AInt s.[protocol_version]])) ;;
  when (fun s => (s.[remote_protocol] <? MIN_PROTOCOL_VERSION)
                 || (s.[remote_protocol] >? MAX_PROTOCOL_VERSION))
    (rprintf FERROR
       ("protocol version mismatch -- is your shell clean?" ++ LF)
       (fun _ => []) ;;
     rprintf FERROR
       ("(see the rsync man page for an explanation)" ++ LF)
       (fun _ => []) ;;
     exit_cleanup RERR_PROTOCOL) ;;
  when (fun s => s.[remote_protocol] <? OLD_PROTOCOL_VERSION)
    (rprintf FINFO
       ("%s is very old version of rsync, upgrade recommended." ++ LF)
       (fun s => [role_name s "Client" "Server"])) ;;
  when (fun s => s.[protocol_version] <? MIN_PROTOCOL_VERSION)
    (rprintf FERROR
       ("--protocol must be at least %d on the %s." ++ LF)
       (fun s => [AInt MIN_PROTOCOL_VERSION; role_name s "Server" "Client"]) ;;
     exit_cleanup RERR_PROTOCOL) ;;
  when (fun s => s.[protocol_version] >? PROTOCOL_VERSION)
    (rprintf FERROR
       ("--protocol must be no more than %d on the %s." ++ LF)
       (fun s => [AInt PROTOCOL_VERSION; role_name s "Server" "Client"]) ;;
     exit_cleanup RERR_PROTOCOL).

(** The format strings of the seven feature errors, lines 150-208. *)
Definition fmt_max_delete : string :=
  "--max-delete=0 requires protocol 30 or higher (negotiated %d)." ++ LF.
Definition fmt_acls : string :=
  "--acls requires protocol 30 or higher (negotiated %d)." ++ LF.
Definition fmt_xattrs : string :=
  "--xattrs requires protocol 30 or higher (negotiated %d)." ++ LF.
Definition fmt_fuzzy : string :=
  "--fuzzy requires protocol 29 or higher (negotiated %d)." ++ LF.
Definition fmt_inplace : string :=
  "%s with --inplace requires protocol 29 or higher (negotiated %d)." ++ LF.
Definition fmt_basis_dirs : string :=
  "Using more than one %s option requires protocol 29 or higher (negotiated %d)."
  ++ LF.
Definition fmt_prune_empty_dirs : string :=
  "--prune-empty-dirs requires protocol 29 or higher (negotiated %d)." ++ LF.

Definition feature_formats : list string :=
  [fmt_max_delete; fmt_acls; fmt_xattrs; fmt_fuzzy; fmt_inplace;
   fmt_basis_dirs; fmt_prune_empty_dirs].

(** [rprintf(FERROR, format, ...); exit_cleanup(RERR_PROTOCOL);] *)
Definition fatal (format : string) (args : state -> list arg) : M unit :=
  rprintf FERROR format args ;; exit_cleanup RERR_PROTOCOL.

(** Line 212-215: the condition under which [inc_recurse] is switched on. *)
Definition inc_recurse_allowed (s : state) : bool :=
  truthy s.[recurse] && truthy s.[allow_inc_recurse]
  && negb (truthy s.[preserve_hard_links])
  && negb (truthy s.[delete_before]) && negb (truthy s.[delete_after])
  && negb (truthy s.[delay_updates])
  && (negb (truthy s.[relative_paths]) || truthy s.[implied_dirs])
  && negb (truthy s.[use_qsort])
  && negb (truthy s.[prune_empty_dirs]).

(** Lines 148-218: the options that need a minimum protocol, and the
    settings that follow from the protocol. *)
Definition validate_features : M unit :=
  when (fun s => s.[protocol_version] <? 30)
    (when (fun s => (s.[max_delete] =? 0) && truthy s.[am_sender])
       (fatal fmt_max_delete (fun s => [AInt s.[protocol_version]])) ;;
     when (fun s => truthy s.[preserve_acls] && negb (truthy s.[local_server]))
       (fatal fmt_acls (fun s => [AInt s.[protocol_version]])) ;;
     when (fun s => truthy s.[preserve_xattrs] && negb (truthy s.[local_server]))
       (fatal fmt_xattrs (fun s => [AInt s.[protocol_version]]))) ;;
  when (fun s => truthy s.[delete_mode]
                 && negb (truthy (wrap_int (wrap_int (s.[delete_before]
                                                      + s.[delete_during])
                                            + s.[delete_after]))))
    (cond (fun s => s.[protocol_version] <? 30)
       (assign delete_before (fun _ => 1))
       (assign delete_during (fun _ => 1))) ;;
  cond (fun s => s.[protocol_version] <? 29)
    (when (fun s => truthy s.[fuzzy_basis])
       (fatal fmt_fuzzy (fun s => [AInt s.[protocol_version]])) ;;
     when (fun s => truthy s.[basis_dir_cnt] && truthy s.[inplace])
       (fatal fmt_inplace
          (fun s => [AStr (dest_option s); AInt s.[protocol_version]])) ;;
     when (fun s => s.[basis_dir_cnt] >? 1)
       (fatal fmt_basis_dirs
          (fun s => [AStr (dest_option s); AInt s.[protocol_version]])) ;;
     when (fun s => truthy s.[prune_empty_dirs])
       (fatal fmt_prune_empty_dirs (fun s => [AInt s.[protocol_version]])))
    (when (fun s => s.[protocol_version] >=? 30)
       (when inc_recurse_allowed (assign inc_recurse (fun _ => 1)) ;;
        assign need_messages_from_generator (fun _ => 1))).

(** Lines 221-223: the local variable [flags]. *)
Definition partial_dir_flags (s : state) : Z :=
  let flags := Z.lor MATCHFLG_NO_PREFIXES MATCHFLG_DIRECTORY in
  if negb (truthy s.[am_sender]) || (s.[protocol_version] >=? 30)
  then Z.lor flags MATCHFLG_PERISHABLE
  else flags.

(** Lines 220-225. *)
Definition register_partial_dir : M unit :=
  fun s =>
    match partial_dir s with
    | Some p =>
        if negb (Ascii.eqb (deref p) "/"%char)
           && (negb (truthy s.[am_server]) || truthy s.[local_server])
        then parse_rule p (partial_dir_flags s) 0 s
        else Ret tt s
    | None => Ret tt s
    end.

(** Lines 227-233: the checksum seed. *)
Definition exchange_seed (f_out f_in : Z) : M unit :=
  cond (fun s => truthy s.[am_server])
    (when (fun s => negb (truthy s.[checksum_seed]))
       (assign checksum_seed (fun s => wrap_int (clock s))) ;;
     write_int RERR_STREAMIO f_out (fun s => s.[checksum_seed]))
    (v <- read_int RERR_STREAMIO f_in ;;
     assign checksum_seed (fun _ => v)).

(** Lines 93-234. *)
Definition setup_protocol (f_out f_in : Z) : M unit :=
  allocate_extras ;;
  exchange_versions f_out f_in ;;
  check_versions ;;
  validate_features ;;
  register_partial_dir ;;
  exchange_seed f_out f_in.

End Compat.

(* ================================================================== *)
(** ** Concrete inputs *)

(** A header in the shape of rsync 3.0's: protocol 30, a final release, a
    sender's back-pointer taking two extras. *)
Definition rsync_h : Header := {|
  PROTOCOL_VERSION := 30;
  SUBPROTOCOL_VERSION := 0;
  MIN_PROTOCOL_VERSION := 20;
  OLD_PROTOCOL_VERSION := 25;
  MAX_PROTOCOL_VERSION := 40;
  PTR_EXTRA_LEN := 2;
  MATCHFLG_NO_PREFIXES := 2 ^ 9;
  MATCHFLG_DIRECTORY := 2 ^ 6;
  MATCHFLG_PERISHABLE := 2 ^ 19;
  RERR_PROTOCOL := 2;
  RERR_STREAMIO := 12
|}.

(** The same header for a pre-release build, sub-protocol 5. *)
Definition prerelease_h : Header := {|
  PROTOCOL_VERSION := 30;
  SUBPROTOCOL_VERSION := 5;
  MIN_PROTOCOL_VERSION := 20;
  OLD_PROTOCOL_VERSION := 25;
  MAX_PROTOCOL_VERSION := 40;
  PTR_EXTRA_LEN := 2;
  MATCHFLG_NO_PREFIXES := 2 ^ 9;
  MATCHFLG_DIRECTORY := 2 ^ 6;
  MATCHFLG_PERISHABLE := 2 ^ 19;
  RERR_PROTOCOL := 2;
  RERR_STREAMIO := 12
|}.

(** The int globals from a list of settings; a global not listed is [0]. *)
Definition globals (l : list (var * Z)) : var -> Z :=
  fun x =>
    match find (fun p => var_eqb x (fst p)) l with
    | Some p => snd p
    | None => 0
    end.

(** A state at program start: nothing sent, nothing logged, no rule. *)
Definition start (l : list (var * Z)) (cmd pdir : option string)
    (input : list Z) : state :=
  State (globals l) cmd pdir None [] [] true input 1194000000 [].

(** A client at protocol 30 whose server answers 29. *)
Definition client_meets_29 : state :=
  start [(protocol_version, 30)] None None [29; 77].

(** A server at protocol 30 whose client sent no hint and answers 29. *)
Definition server_meets_29 : state :=
  start [(protocol_version, 30); (am_server, 1)] None None [29].

(** The same client asking for --prune-empty-dirs. *)
Definition prune_client_meets_29 : state :=
  start [(protocol_version, 30); (prune_empty_dirs, 1)] None None [29; 77].

(** A state at protocol 28 with --prune-empty-dirs requested. *)
Definition prune_at_28 : state :=
  start [(protocol_version, 28); (remote_protocol, 28);
         (prune_empty_dirs, 1)] None None [77].

(** A sender that preserves owners and extended attributes. *)
Definition sender_uid_xattrs : state :=
  start [(protocol_version, 30); (am_sender, 1); (preserve_uid, 1);
         (preserve_xattrs, 1)] None None [30; 77].

(** A server; the hint of its client is the second argument. *)
Definition server_with_hint (hint : string) : state :=
  start [(protocol_version, 30); (am_server, 1)] (Some hint) None [30].

(** A recursive transfer that preserves hard links, and one that does not. *)
Definition recursive_hard_links : state :=
  start [(protocol_version, 30); (recurse, 1); (allow_inc_recurse, 1);
         (preserve_hard_links, 1)] None None [30; 77].

Definition recursive_plain : state :=
  start [(protocol_version, 30); (recurse, 1); (allow_inc_recurse, 1)]
    None None [30; 77].

(** A client reading a batch that was recorded at protocol 31. *)
Definition replay_of_31 : state :=
  start [(protocol_version, 30); (read_batch, 1)] None None [31; 77].

(** A sending client with a partial-dir, given as the argument. *)
Definition client_with_partial_dir (dir : string) : state :=
  start [(protocol_version, 30); (am_sender, 1)] None (Some dir) [30; 77].

(** A client asking for --fuzzy and --prune-empty-dirs at protocol 30. *)
Definition fuzzy_prune_at_30 : state :=
  start [(protocol_version, 30); (fuzzy_basis, 1); (prune_empty_dirs, 1)]
    None None [30; 77].

(** A client at verbosity 4 whose server answers 24, an old version. *)
Definition verbose_client_meets_24 : state :=
  start [(protocol_version, 30); (verbose, 4)] None None [24; 77].

(** A client asking for a deletion without a timing. *)
Definition delete_client_meets_29 : state :=
  start [(protocol_version, 30); (delete_mode, 1)] None None [29; 77].

(** A receiver that preserves owners, groups, ACLs and extended
    attributes. *)
Definition receiver_all_attrs : state :=
  start [(protocol_version, 30); (preserve_uid, 1); (preserve_gid, 1);
         (preserve_acls, 1); (preserve_xattrs, 1)] None None [30; 77].

(** A client whose [remote_protocol] was set to 29 before
    [setup_protocol]. *)
Definition client_with_preset_remote : state :=
  start [(protocol_version, 29); (remote_protocol, 29)] None None [77].

(** The client on the other end of [server_meets_29]: it is at protocol 29
    and receives the server's 30 and the server's seed. *)
Definition client_of_server_meets_29 : state :=
  start [(protocol_version, 29)] None None [30; 1194000000].

(** The values of some globals, in a row. *)
Definition values_of (xs : list var) (s : state) : list Z :=
  map (fun x => s.[x]) xs.

(* ================================================================== *)
(** ** Relations between the state before and after a statement *)

Local Open Scope list_scope.

(** [preserves R m]: every run of [m], whether it returns or exits, ends in a
    state related by [R] to the one it started in. *)
Definition preserves {A} (R : state -> state -> Prop) (m : M A) : Prop :=
  forall s, R s (final (m s)).

(** [keeps f]: the observation [f] of the state has not changed. *)
Definition keeps {T} (f : state -> T) : state -> state -> Prop :=
  fun s s' => f s' = f s.

(** [protocol_version] has not gone up. *)
Definition version_not_raised (s s' : state) : Prop :=
  s'.[protocol_version] <= s.[protocol_version].

(** The hint in [shell_cmd] is absent (a null pointer), is not of the form
    MAJOR.SUB (no dot), or has a component that is not a number or is zero
    ([atoi] yields 0 for both). *)
Definition hint_unusable (cmd : option string) : Prop :=
  match cmd with
  | None => True
  | Some str =>
      match strchr str "."%char with
      | None => True
      | Some dot => atoi str = 0 \/ atoi (next_char dot) = 0
      end
  end.

(** With hard links requested, [inc_recurse] is left as it was (and the
    request itself is not changed). *)
Definition hard_links_freeze_inc_recurse (s s' : state) : Prop :=
  truthy s.[preserve_hard_links] = true ->
  s'.[inc_recurse] = s.[inc_recurse]
  /\ s'.[preserve_hard_links] = s.[preserve_hard_links].

(** The conditions of the six feature errors that come before the one for
    [prune_empty_dirs] (lines 149, 156, 163, 180, 188, 196). *)
Definition earlier_gate (s : state) : bool :=
  ((s.[max_delete] =? 0) && truthy s.[am_sender])
  || (truthy s.[preserve_acls] && negb (truthy s.[local_server]))
  || (truthy s.[preserve_xattrs] && negb (truthy s.[local_server]))
  || truthy s.[fuzzy_basis]
  || (truthy s.[basis_dir_cnt] && truthy s.[inplace])
  || (s.[basis_dir_cnt] >? 1).

(** When reading a batch, nothing has been written (and the batch mode
    itself is not changed). *)
Definition replay_sends_nothing (s s' : state) : Prop :=
  truthy s.[read_batch] = true ->
  sent s' = sent s /\ s'.[read_batch] = s.[read_batch].

(** The condition of line 220 on the state: a path [p] is requested (the
    pointer is not null), its first character is not a slash, and this side
    is not a server, or is a local one. *)
Definition partial_dir_rule_due (s : state) (p : string) : Prop :=
  partial_dir s = Some p
  /\ deref p <> "/"%char
  /\ (s.[am_server] = 0 \/ s.[local_server] <> 0).

(** The condition of lines 212-215 on the options, as a proposition. *)
Definition inc_recurse_conditions (s : state) : Prop :=
  s.[recurse] <> 0 /\ s.[allow_inc_recurse] <> 0
  /\ s.[preserve_hard_links] = 0
  /\ s.[delete_before] = 0 /\ s.[delete_after] = 0
  /\ s.[delay_updates] = 0
  /\ (s.[relative_paths] = 0 \/ s.[implied_dirs] <> 0)
  /\ s.[use_qsort] = 0
  /\ s.[prune_empty_dirs] = 0.

(** The format strings of the two informational messages of
    [check_versions], lines 124 and 134. *)
Definition fmt_versions : string :=
  ("(%s) Protocol versions: remote=%d, negotiated=%d" ++ LF)%string.
Definition fmt_very_old : string :=
  ("%s is very old version of rsync, upgrade recommended." ++ LF)%string.

(** What [check_versions] logs when it returns: the versions at verbosity
    above 3, then the advice to upgrade for a peer below
    [OLD_PROTOCOL_VERSION]. *)
Definition versions_report {hdr : Header} (s : state) : list message :=
  (if s.[verbose] >? 3
   then [Message FINFO fmt_versions
           [role_name s "Server" "Client"; AInt s.[remote_protocol];
            AInt s.[protocol_version]]]
   else [])
  ++ (if s.[remote_protocol] <? OLD_PROTOCOL_VERSION
      then [Message FINFO fmt_very_old [role_name s "Client" "Server"]]
      else []).

(** Whether a format string is one of the seven feature errors. *)
Definition is_feature_format (f : string) : bool :=
  existsb (String.eqb f) feature_formats.

(** The log has only grown, and by no feature error. *)
Definition no_feature_error (s s' : state) : Prop :=
  exists l,
    log s' = log s ++ l
    /\ forallb (fun m => negb (is_feature_format (msg_format m))) l = true.

(* ================================================================== *)
(** ** Basic facts *)

Lemma wrap_int_id (z : Z) : int_range z -> wrap_int z = z.
Proof.
  unfold int_range, int_min, int_max, wrap_int. intros Hz.
  rewrite Z.mod_small; lia.
Qed.

Lemma truthy_true (z : Z) : truthy z = true <-> z <> 0.
Proof.
  unfold truthy. destruct (Z.eqb_spec z 0); simpl; split; congruence.
Qed.

Lemma truthy_false (z : Z) : truthy z = false <-> z = 0.
Proof.
  unfold truthy. destruct (Z.eqb_spec z 0); simpl; split; congruence.
Qed.

Lemma bind_Ret {A B} (m : M A) (k : A -> M B) (s s1 : state) (a : A) :
  m s = Ret a s1 -> bind m k s = k a s1.
Proof. unfold bind. intros ->. reflexivity. Qed.

Lemma bind_Exit {A B} (m : M A) (k : A -> M B) (s s1 : state) (c : Z) :
  m s = Exit c s1 -> bind m k s = Exit c s1.
Proof. unfold bind. intros ->. reflexivity. Qed.

Lemma bind_relates {A B} (R : state -> state -> Prop) (m : M A)
    (k : A -> M B) (s : state) :
  (forall s1 s2 s3, R s1 s2 -> R s2 s3 -> R s1 s3) ->
  R s (final (m s)) -> (forall a, forall s1, R s1 (final (k a s1))) ->
  R s (final (bind m k s)).
Proof.
  intros Rtrans Hm Hk. unfold bind.
  destruct (m s) as [a s1 | c s1]; simpl in *.
  - eapply Rtrans; [exact Hm | apply Hk].
  - exact Hm.
Qed.

Lemma final_bind {A B} (m : M A) (k : A -> M B) (s : state) :
  final (bind m k s)
  = match m s with
    | Ret a s1 => final (k a s1)
    | Exit _ s1 => s1
    end.
Proof. unfold bind. destruct (m s); reflexivity. Qed.

Lemma returned_Ret (m : M unit) (s : state) :
  returned (m s) = true -> m s = Ret tt (final (m s)).
Proof. destruct (m s) as [[] s1 | c s1]; simpl; congruence. Qed.

Section Preserves.

Context {A B : Type} (R : state -> state -> Prop).
Context (Rrefl : forall s, R s s).
Context (Rtrans : forall s1 s2 s3, R s1 s2 -> R s2 s3 -> R s1 s3).

Lemma preserves_ret (a : A) : preserves R (ret a).
Proof. intros s. apply Rrefl. Qed.

Lemma preserves_exit (c : Z) : preserves R (@exit_cleanup A c).
Proof. intros s. apply Rrefl. Qed.

Lemma preserves_read (x : var) : preserves R (read x).
Proof. intros s. apply Rrefl. Qed.

Lemma preserves_bind (m : M A) (k : A -> M B) :
  preserves R m -> (forall a, preserves R (k a)) -> preserves R (bind m k).
Proof.
  intros Hm Hk s. unfold bind. specialize (Hm s).
  destruct (m s) as [a s1 | c s1]; simpl in *.
  - eapply Rtrans; [exact Hm | apply Hk].
  - exact Hm.
Qed.

Lemma preserves_cond (c : state -> bool) (t e : M A) :
  (forall s, c s = true -> R s (final (t s))) ->
  (forall s, c s = false -> R s (final (e s))) ->
  preserves R (cond c t e).
Proof.
  intros Ht He s. unfold cond. destruct (c s) eqn:Hc; auto.
Qed.

Lemma preserves_cond_any (c : state -> bool) (t e : M A) :
  preserves R t -> preserves R e -> preserves R (cond c t e).
Proof. intros Ht He. apply preserves_cond; intros; [apply Ht | apply He]. Qed.

End Preserves.

Lemma preserves_when (R : state -> state -> Prop) (c : state -> bool)
    (t : M unit) :
  (forall s, R s s) -> (forall s, c s = true -> R s (final (t s))) ->
  preserves R (when c t).
Proof.
  intros Rrefl Ht. apply preserves_cond; [exact Ht | intros; apply Rrefl].
Qed.

Lemma preserves_when_any (R : state -> state -> Prop) (c : state -> bool)
    (t : M unit) :
  (forall s, R s s) -> preserves R t -> preserves R (when c t).
Proof. intros Rrefl Ht. apply preserves_when; [exact Rrefl | intros; apply Ht]. Qed.

Lemma keeps_refl {T} (f : state -> T) (s : state) : keeps f s s.
Proof. reflexivity. Qed.

Lemma keeps_trans {T} (f : state -> T) (s1 s2 s3 : state) :
  keeps f s1 s2 -> keeps f s2 s3 -> keeps f s1 s3.
Proof. unfold keeps. congruence. Qed.

Lemma no_feature_error_refl (s : state) : no_feature_error s s.
Proof. exists []. rewrite app_nil_r. auto. Qed.

Lemma no_feature_error_trans (s1 s2 s3 : state) :
  no_feature_error s1 s2 -> no_feature_error s2 s3 -> no_feature_error s1 s3.
Proof.
  intros [l1 [E1 F1]] [l2 [E2 F2]]. exists (l1 ++ l2). split.
  - rewrite E2, E1, app_assoc. reflexivity.
  - rewrite forallb_app, F1, F2. reflexivity.
Qed.

Lemma keeps_log_no_feature_error (s s' : state) :
  keeps log s s' -> no_feature_error s s'.
Proof.
  unfold keeps. intros E. exists []. rewrite app_nil_r. auto.
Qed.

(** The primitive statements change one component of the state each; an
    observation that does not look at that component is kept. *)
Section KeepsPrimitives.

Context {T : Type} (f : state -> T).

Lemma keeps_assign (x : var) (e : state -> Z) :
  (forall v s, f (set_int x v s) = f s) -> preserves (keeps f) (assign x e).
Proof. intros H s. apply H. Qed.

Lemma keeps_pre_incr (x : var) :
  (forall v s, f (set_int x v s) = f s) -> preserves (keeps f) (pre_incr x).
Proof. intros H s. apply H. Qed.

Lemma keeps_rprintf (c : logcode) (fmt : string) (args : state -> list arg) :
  (forall l s, f (set_log l s) = f s) -> preserves (keeps f) (rprintf c fmt args).
Proof. intros H s. apply H. Qed.

Lemma keeps_write_int (c fd : Z) (e : state -> Z) :
  (forall l s, f (set_sent l s) = f s) ->
  preserves (keeps f) (write_int c fd e).
Proof.
  intros H s. unfold write_int, keeps.
  destruct (writable s); simpl; [apply H | reflexivity].
Qed.

Lemma keeps_read_int (c fd : Z) :
  (forall l s, f (set_pending l s) = f s) -> preserves (keeps f) (read_int c fd).
Proof.
  intros H s. unfold read_int, keeps.
  destruct (pending s); simpl; [reflexivity | apply H].
Qed.

Lemma keeps_parse_rule (p : string) (mflags xflags : Z) :
  (forall l s, f (set_filter_list l s) = f s) ->
  preserves (keeps f) (parse_rule p mflags xflags).
Proof. intros H s. apply H. Qed.

End KeepsPrimitives.

Lemma version_not_raised_refl (s : state) : version_not_raised s s.
Proof. unfold version_not_raised. lia. Qed.

Lemma version_not_raised_trans (s1 s2 s3 : state) :
  version_not_raised s1 s2 -> version_not_raised s2 s3 ->
  version_not_raised s1 s3.
Proof. unfold version_not_raised. lia. Qed.

Lemma version_not_raised_keeps {A} (m : M A) :
  preserves (keeps (fun s => s.[protocol_version])) m ->
  preserves version_not_raised m.
Proof.
  intros H s. specialize (H s). unfold keeps in H.
  unfold version_not_raised. lia.
Qed.

Lemma hard_links_freeze_refl (s : state) : hard_links_freeze_inc_recurse s s.
Proof. intros _. auto. Qed.

Lemma hard_links_freeze_trans (s1 s2 s3 : state) :
  hard_links_freeze_inc_recurse s1 s2 -> hard_links_freeze_inc_recurse s2 s3 ->
  hard_links_freeze_inc_recurse s1 s3.
Proof.
  unfold hard_links_freeze_inc_recurse. intros H12 H23 H1.
  destruct (H12 H1) as [Ha Hb]. rewrite <- Hb in H1.
  destruct (H23 H1) as [Hc Hd]. split; congruence.
Qed.

Lemma hard_links_freeze_keeps {A} (m : M A) :
  preserves (keeps (fun s => (s.[inc_recurse], s.[preserve_hard_links]))) m ->
  preserves hard_links_freeze_inc_recurse m.
Proof.
  intros H s _. specialize (H s). unfold keeps in H.
  injection H as -> ->. auto.
Qed.

Lemma replay_sends_nothing_refl (s : state) : replay_sends_nothing s s.
Proof. intros _. auto. Qed.

Lemma replay_sends_nothing_trans (s1 s2 s3 : state) :
  replay_sends_nothing s1 s2 -> replay_sends_nothing s2 s3 ->
  replay_sends_nothing s1 s3.
Proof.
  unfold replay_sends_nothing. intros H12 H23 H1.
  destruct (H12 H1) as [Ha Hb]. rewrite <- Hb in H1.
  destruct (H23 H1) as [Hc Hd]. split; congruence.
Qed.

Lemma replay_sends_nothing_keeps {A} (m : M A) :
  preserves (keeps (fun s => (sent s, s.[read_batch]))) m ->
  preserves replay_sends_nothing m.
Proof.
  intros H s _. specialize (H s). unfold keeps in H.
  injection H as -> ->. auto.
Qed.

Lemma no_feature_error_rprintf (c : logcode) (fmt : string)
    (args : state -> list arg) :
  is_feature_format fmt = false ->
  preserves no_feature_error (rprintf c fmt args).
Proof.
  intros H s. exists [Message c fmt (args s)]. split; [reflexivity |].
  simpl. rewrite H. reflexivity.
Qed.

Lemma no_feature_error_keeps {A} (m : M A) :
  preserves (keeps log) m -> preserves no_feature_error m.
Proof. intros H s. apply keeps_log_no_feature_error, H. Qed.

(** Side conditions on the relation. *)
Ltac rel_side :=
  first [ exact (keeps_refl _) | exact (keeps_trans _)
        | exact no_feature_error_refl | exact no_feature_error_trans
        | exact version_not_raised_refl | exact version_not_raised_trans
        | exact hard_links_freeze_refl | exact hard_links_freeze_trans
        | exact replay_sends_nothing_refl | exact replay_sends_nothing_trans ].

(** One step of a proof that a statement preserves a relation, following the
    structure of the statement. *)
Ltac frame_step :=
  lazymatch goal with
  | |- preserves _ (bind _ _) => apply preserves_bind; [rel_side | | intros ?]
  | |- preserves _ (cond _ _ _) => apply preserves_cond_any
  | |- preserves _ (when _ _) => apply preserves_when_any; [rel_side | ]
  | |- preserves _ (ret _) => apply preserves_ret; rel_side
  | |- preserves _ (exit_cleanup _) => apply preserves_exit; rel_side
  | |- preserves _ (read _) => apply preserves_read; rel_side
  | |- preserves _ (if ?c then _ else _) => destruct c
  | |- preserves _ (fatal _ _) => unfold fatal
  | |- preserves _ (decr _) => unfold decr
  | |- preserves _ (incr _) => unfold incr
  | |- preserves (keeps _) (assign _ _) =>
      apply keeps_assign; intros; reflexivity
  | |- preserves (keeps _) (pre_incr _) =>
      apply keeps_pre_incr; intros; reflexivity
  | |- preserves (keeps _) (rprintf _ _ _) =>
      apply keeps_rprintf; intros; reflexivity
  | |- preserves (keeps _) (write_int _ _ _) =>
      apply keeps_write_int; intros; reflexivity
  | |- preserves (keeps _) (read_int _ _) =>
      apply keeps_read_int; intros; reflexivity
  | |- preserves (keeps _) (parse_rule _ _ _) =>
      apply keeps_parse_rule; intros; reflexivity
  | |- preserves no_feature_error (rprintf _ _ _) =>
      apply no_feature_error_rprintf; vm_compute; reflexivity
  | |- preserves no_feature_error _ =>
      apply no_feature_error_keeps
  | |- preserves version_not_raised _ =>
      apply version_not_raised_keeps
  | |- preserves hard_links_freeze_inc_recurse _ =>
      apply hard_links_freeze_keeps
  | |- preserves replay_sends_nothing _ =>
      apply replay_sends_nothing_keeps
  end.

Ltac frame := repeat frame_step.

(* ================================================================== *)
(** ** Properties of the code *)

Section Properties.

Context {hdr : Header}.

(** *** Which parts of the state a block leaves alone *)

Lemma preserves_compare_sub_protocol (R : state -> state -> Prop)
    (our_sub their_protocol their_sub : Z) :
  (forall s, R s s) ->
  (forall v s, R s (set_int protocol_version v s)) ->
  preserves R (compare_sub_protocol our_sub their_protocol their_sub).
Proof.
  intros Rrefl Hset s.
  unfold compare_sub_protocol, bind, read, decr, assign, ret.
  repeat match goal with
         | |- context [if ?c then _ else _] => destruct c
         end; simpl; auto.
Qed.

Lemma preserves_check_sub_protocol (R : state -> state -> Prop) :
  (forall s, R s s) ->
  (forall v s, R s (set_int protocol_version v s)) ->
  preserves R check_sub_protocol.
Proof.
  intros Rrefl Hset s. unfold check_sub_protocol, bind, read.
  destruct (parse_sub_protocol (shell_cmd s)) as [[tp ts] |].
  - apply preserves_compare_sub_protocol; assumption.
  - destruct (truthy _); [apply Hset | apply Rrefl].
Qed.

Lemma keeps_check_sub_protocol {T} (f : state -> T) :
  (forall v s, f (set_int protocol_version v s) = f s) ->
  preserves (keeps f) check_sub_protocol.
Proof.
  intros H. apply preserves_check_sub_protocol.
  - apply keeps_refl.
  - exact H.
Qed.

Lemma keeps_register_partial_dir {T} (f : state -> T) :
  (forall l s, f (set_filter_list l s) = f s) ->
  preserves (keeps f) register_partial_dir.
Proof.
  intros H s. unfold register_partial_dir.
  destruct (partial_dir s) as [p |]; [| reflexivity].
  destruct (_ && _); [apply keeps_parse_rule, H | reflexivity].
Qed.

(** [allocate_extras] always runs to its end. *)
Lemma allocate_extras_returns (s : state) :
  allocate_extras s = Ret tt (final (allocate_extras s)).
Proof.
  apply returned_Ret.
  unfold allocate_extras, bind, when, cond, assign, incr, pre_incr, ret.
  repeat (match goal with
          | |- context [if ?c then _ else _] => destruct c
          end; cbn); reflexivity.
Qed.

(** Proofs that a block leaves an observation alone, through the blocks of
    [setup_protocol]. *)
Ltac frame_blocks :=
  repeat first
    [ frame_step
    | lazymatch goal with
      | |- preserves (keeps _) check_sub_protocol =>
          apply keeps_check_sub_protocol; intros; reflexivity
      | |- preserves (keeps _) register_partial_dir =>
          apply keeps_register_partial_dir; intros; reflexivity
      | |- preserves _ allocate_extras => unfold allocate_extras
      | |- preserves _ (exchange_versions _ _) => unfold exchange_versions
      | |- preserves _ check_versions => unfold check_versions
      | |- preserves _ validate_features => unfold validate_features
      | |- preserves _ (exchange_seed _ _) => unfold exchange_seed
      end ].

(** *** Slot allocation *)

(** Nothing after line 106 touches the extra-attribute indexes. *)
Lemma extras_kept_after_allocation (f_out f_in : Z) :
  preserves
    (keeps (fun s => (s.[file_extra_cnt], s.[uid_ndx], s.[gid_ndx],
                      s.[acls_ndx], s.[xattrs_ndx])))
    (exchange_versions f_out f_in ;; check_versions ;; validate_features ;;
     register_partial_dir ;; exchange_seed f_out f_in).
Proof. frame_blocks. Qed.

(** C3. On the sending side with exactly [preserve_uid] and
    [preserve_xattrs] requested ([preserve_gid] off; [preserve_acls] never
    takes a slot on the sender), and with the sender's baseline
    [PTR_EXTRA_LEN] of 2 on a counter that starts at its initialiser 0, the
    owner index is 3, the extended-attribute index is 4, the total count is
    4, and neither the group nor the ACL index is assigned. *)
Theorem sender_uid_xattrs_slots (f_out f_in : Z) (s : state) :
  PTR_EXTRA_LEN = 2 ->
  s.[file_extra_cnt] = 0 ->
  truthy s.[am_sender] = true ->
  truthy s.[preserve_uid] = true ->
  truthy s.[preserve_gid] = false ->
  truthy s.[preserve_xattrs] = true ->
  let s' := final (setup_protocol f_out f_in s) in
  s'.[uid_ndx] = 3 /\ s'.[xattrs_ndx] = 4 /\ s'.[file_extra_cnt] = 4
  /\ s'.[gid_ndx] = s.[gid_ndx] /\ s'.[acls_ndx] = s.[acls_ndx].
Proof.
  intros Hlen Hcnt Hsender Huid Hgid Hxattrs s'. subst s'.
  unfold setup_protocol.
  rewrite (bind_Ret _ _ _ _ _ (allocate_extras_returns s)).
  pose proof (extras_kept_after_allocation f_out f_in
                (final (allocate_extras s))) as Hkept.
  unfold keeps in Hkept. injection Hkept as -> -> -> -> ->.
  clear f_out f_in.
  unfold allocate_extras, bind, when, cond, assign, incr, pre_incr, ret.
  cbn. rewrite Hsender. cbn. rewrite Huid. cbn. rewrite Hgid. cbn.
  rewrite Hsender, andb_false_r. cbn. rewrite Hxattrs. cbn.
  rewrite Hcnt, Hlen. repeat split; reflexivity.
Qed.

(** *** The sub-protocol check *)

(** The first [if] of [check_sub_protocol] is taken exactly for an unusable
    hint. *)
Lemma parse_sub_protocol_None (cmd : option string) :
  parse_sub_protocol cmd = None <-> hint_unusable cmd.
Proof.
  unfold parse_sub_protocol, hint_unusable.
  destruct cmd as [str |]; [| tauto].
  destruct (strchr str ".") as [dot |]; [| tauto].
  destruct (Z.eqb_spec (atoi str) 0) as [E1 | E1]; [tauto |].
  destruct (Z.eqb_spec (atoi (next_char dot)) 0) as [E2 | E2]; [tauto |].
  split; [discriminate | tauto].
Qed.

(** A hint that passes the first [if] has two non-zero numbers. *)
Lemma parse_sub_protocol_Some (cmd : option string) (tp ts : Z) :
  parse_sub_protocol cmd = Some (tp, ts) -> tp <> 0 /\ ts <> 0.
Proof.
  unfold parse_sub_protocol.
  destruct cmd as [str |]; [| discriminate].
  destruct (strchr str ".") as [dot |]; [| discriminate].
  destruct (Z.eqb_spec (atoi str) 0) as [E1 | E1]; [discriminate |].
  destruct (Z.eqb_spec (atoi (next_char dot)) 0) as [E2 | E2];
    [discriminate |].
  intros H. injection H as <- <-. auto.
Qed.

(** With a usable hint, [check_sub_protocol] is lines 81-90 on the two
    numbers of the hint. *)
Lemma check_sub_protocol_parsed (s : state) (tp ts : Z) :
  parse_sub_protocol (shell_cmd s) = Some (tp, ts) ->
  check_sub_protocol s
  = compare_sub_protocol (our_sub_protocol s.[protocol_version]) tp ts s.
Proof.
  intros H. unfold check_sub_protocol, bind, read. rewrite H. reflexivity.
Qed.

(** C4. On an absent, malformed or zero-component hint,
    [check_sub_protocol] (run by a server whose peer is not local, line 109)
    returns with [protocol_version] one lower when [our_sub] is non-zero and
    unchanged when [our_sub] is 0.  [protocol_version] is an [int] above
    [INT_MIN], so that the decrement is the subtraction of 1. *)
Theorem unusable_hint_demotes_by_our_sub (s : state) :
  hint_unusable (shell_cmd s) ->
  int_min < s.[protocol_version] <= int_max ->
  let our_sub := our_sub_protocol s.[protocol_version] in
  let s' := final (check_sub_protocol s) in
  returned (check_sub_protocol s) = true
  /\ (our_sub <> 0 -> s'.[protocol_version] = s.[protocol_version] - 1)
  /\ (our_sub = 0 -> s'.[protocol_version] = s.[protocol_version]).
Proof.
  intros Hhint Hrange our_sub s'. subst our_sub s'.
  apply parse_sub_protocol_None in Hhint.
  unfold check_sub_protocol, bind, read. rewrite Hhint.
  unfold truthy.
  destruct (Z.eqb_spec (our_sub_protocol s.[protocol_version]) 0) as [E | E];
    cbn.
  - repeat split; congruence.
  - repeat split; [| congruence]. intros _.
    apply wrap_int_id. unfold int_range. lia.
Qed.

(** Lines 81-85 on any two numbers. *)
Lemma compare_sub_protocol_behind (our_sub their_protocol their_sub : Z)
    (s : state) :
  their_protocol < s.[protocol_version] ->
  compare_sub_protocol our_sub their_protocol their_sub s
  = if truthy their_sub
    then Ret tt (set_int protocol_version (wrap_int (their_protocol - 1)) s)
    else Ret tt s.
Proof.
  intros Hlt. unfold compare_sub_protocol, bind, read.
  destruct (Z.ltb_spec their_protocol s.[protocol_version]); [| lia].
  destruct (truthy their_sub); reflexivity.
Qed.

(** C5. When the two numbers of the hint reach line 81 with
    [their_protocol < protocol_version], the function returns with
    [protocol_version] set to [their_protocol - 1] if [their_sub] is
    non-zero and unchanged if it is zero; [our_sub] plays no part, the
    comparison of line 89 is not reached.  [their_protocol] is above
    [INT_MIN], so that line 83 is the subtraction of 1. *)
Theorem peer_behind_sets_version (our_sub their_protocol their_sub : Z)
    (s : state) :
  their_protocol < s.[protocol_version] ->
  int_min < their_protocol ->
  s.[protocol_version] <= int_max ->
  let o := compare_sub_protocol our_sub their_protocol their_sub s in
  returned o = true
  /\ (their_sub <> 0 -> (final o).[protocol_version] = their_protocol - 1)
  /\ (their_sub = 0 -> (final o).[protocol_version] = s.[protocol_version]).
Proof.
  intros Hlt Hmin Hmax o. subst o.
  rewrite (compare_sub_protocol_behind _ _ _ _ Hlt).
  unfold truthy. destruct (Z.eqb_spec their_sub 0) as [E | E]; cbn.
  - repeat split; congruence.
  - repeat split; [| congruence]. intros _.
    apply wrap_int_id. unfold int_range. lia.
Qed.

(** The same inside [check_sub_protocol]: a usable hint whose first number
    is below [protocol_version] always has a non-zero second number, and
    sets [protocol_version] to the first number less one. *)
Lemma check_sub_protocol_peer_behind (s : state) (tp ts : Z) :
  parse_sub_protocol (shell_cmd s) = Some (tp, ts) ->
  tp < s.[protocol_version] ->
  int_min < tp ->
  s.[protocol_version] <= int_max ->
  (final (check_sub_protocol s)).[protocol_version] = tp - 1.
Proof.
  intros Hparse Hlt Hmin Hmax.
  rewrite (check_sub_protocol_parsed _ _ _ Hparse).
  destruct (parse_sub_protocol_Some _ _ _ Hparse) as [_ Hts].
  rewrite (compare_sub_protocol_behind _ _ _ _ Hlt).
  apply truthy_true in Hts. rewrite Hts. cbn.
  apply wrap_int_id. unfold int_range. lia.
Qed.

(** *** The version exchange *)

(** Nothing after line 116 touches the two protocol numbers. *)
Lemma versions_kept_after_exchange (f_out f_in : Z) :
  preserves
    (keeps (fun s => (s.[protocol_version], s.[remote_protocol])))
    (check_versions ;; validate_features ;; register_partial_dir ;;
     exchange_seed f_out f_in).
Proof. frame_blocks. Qed.

(** What [allocate_extras] leaves alone: everything that the version
    exchange reads. *)
Lemma exchange_inputs_kept_by_allocation :
  preserves
    (keeps (fun s => (s.[protocol_version], s.[remote_protocol],
                      s.[am_server], s.[local_server], s.[read_batch],
                      shell_cmd s, pending s, sent s, writable s, log s)))
    allocate_extras.
Proof. frame_blocks. Qed.

(** With no usable hint and a zero [our_sub], [check_sub_protocol] assigns
    nothing. *)
Lemma check_sub_protocol_final_releases (s : state) :
  our_sub_protocol s.[protocol_version] = 0 ->
  parse_sub_protocol (shell_cmd s) = None ->
  check_sub_protocol s = Ret tt s.
Proof.
  intros Hour Hparse. unfold check_sub_protocol, bind, read.
  rewrite Hparse, Hour. reflexivity.
Qed.

(** C1. Both sides final releases: where [check_sub_protocol] is run (a
    server whose peer is not local), [our_sub] is 0 and the peer sent no
    usable VER.SUB hint.  A live session: [read_batch] is off, the exchange
    takes place ([remote_protocol] still 0), the write goes through and a
    version [r] arrives on [f_in].  Then the negotiated [protocol_version]
    is the minimum of the local version and [r], and [remote_protocol] is
    [r], whichever way [setup_protocol] ends after that. *)
Theorem final_releases_negotiate_min (f_out f_in : Z) (s : state)
    (r : Z) (rest : list Z) :
  s.[remote_protocol] = 0 ->
  truthy s.[read_batch] = false ->
  writable s = true ->
  pending s = r :: rest ->
  (truthy s.[am_server] && negb (truthy s.[local_server]) = true ->
   our_sub_protocol s.[protocol_version] = 0
   /\ hint_unusable (shell_cmd s)) ->
  let s' := final (setup_protocol f_out f_in s) in
  s'.[protocol_version] = Z.min s.[protocol_version] r
  /\ s'.[remote_protocol] = r.
Proof.
  intros Hremote Hbatch Hwrite Hpending Hfinal s'. subst s'.
  unfold setup_protocol.
  rewrite (bind_Ret _ _ _ _ _ (allocate_extras_returns s)).
  pose proof (exchange_inputs_kept_by_allocation s) as Hkept.
  unfold keeps in Hkept.
  set (s1 := final (allocate_extras s)) in *.
  injection Hkept as Hpv Hrem Hsrv Hloc Hrb Hcmd Hpend Hsent Hwr _.
  assert (Hex : exists s2,
             exchange_versions f_out f_in s1 = Ret tt s2
             /\ s2.[protocol_version] = Z.min s.[protocol_version] r
             /\ s2.[remote_protocol] = r).
  { unfold exchange_versions, when at 1, cond. rewrite Hrem, Hremote. cbn.
    assert (Hsub : when (fun s => truthy s.[am_server]
                                  && negb (truthy s.[local_server]))
                     check_sub_protocol s1 = Ret tt s1).
    { unfold when, cond. rewrite Hsrv, Hloc.
      destruct (_ && _); [| reflexivity].
      destruct (Hfinal eq_refl) as [Hour Hhint].
      apply check_sub_protocol_final_releases; rewrite ?Hpv, ?Hcmd.
      - exact Hour.
      - apply parse_sub_protocol_None. exact Hhint. }
    rewrite (bind_Ret _ _ _ _ _ Hsub).
    unfold bind, when, cond, write_int, read_int, assign, ret.
    rewrite Hrb, Hbatch. cbn. rewrite Hwr, Hwrite. cbn.
    rewrite Hpend, Hpending. cbn.
    rewrite Hpv. destruct (Z.gtb_spec s.[protocol_version] r).
    - eexists. split; [reflexivity |]. cbn. lia.
    - eexists. split; [reflexivity |]. cbn. lia. }
  destruct Hex as [s2 [Hrun [Hmin Hr]]].
  rewrite (bind_Ret _ _ _ _ _ Hrun).
  pose proof (versions_kept_after_exchange f_out f_in s2) as Hrest.
  unfold keeps in Hrest. injection Hrest as -> ->. auto.
Qed.

(** *** [protocol_version] only goes down *)

Lemma compare_sub_protocol_not_raised (our_sub tp ts : Z) (s : state) :
  int_min < s.[protocol_version] <= int_max ->
  int_min < tp ->
  version_not_raised s (final (compare_sub_protocol our_sub tp ts s)).
Proof.
  intros Hpv Htp. unfold version_not_raised.
  unfold compare_sub_protocol, bind, read, decr, assign, ret.
  destruct (Z.ltb_spec tp s.[protocol_version]).
  - destruct (truthy ts); cbn; [| lia].
    rewrite wrap_int_id; [lia | unfold int_range; lia].
  - destruct (negb _); cbn; [| lia].
    rewrite wrap_int_id; [lia | unfold int_range; lia].
Qed.

Lemma check_sub_protocol_not_raised (s : state) :
  int_min < s.[protocol_version] <= int_max ->
  (forall tp ts,
     parse_sub_protocol (shell_cmd s) = Some (tp, ts) -> int_min < tp) ->
  version_not_raised s (final (check_sub_protocol s)).
Proof.
  intros Hpv Hhint.
  destruct (parse_sub_protocol (shell_cmd s)) as [[tp ts] |] eqn:Hparse.
  - rewrite (check_sub_protocol_parsed _ _ _ Hparse).
    apply compare_sub_protocol_not_raised; [exact Hpv |].
    apply (Hhint tp ts). reflexivity.
  - unfold check_sub_protocol, bind, read, decr, assign, ret.
    rewrite Hparse. unfold version_not_raised.
    destruct (truthy _); cbn; [| lia].
    rewrite wrap_int_id; [lia | unfold int_range; lia].
Qed.

(** Line 114-115: the clamp to the peer's version. *)
Lemma clamp_not_raised :
  preserves version_not_raised
    (when (fun s => s.[protocol_version] >? s.[remote_protocol])
       (assign protocol_version (fun s => s.[remote_protocol]))).
Proof.
  apply preserves_when; [rel_side |].
  intros s Hgt. unfold version_not_raised. cbn.
  apply Z.gtb_lt in Hgt. lia.
Qed.

Lemma exchange_versions_not_raised (f_out f_in : Z) (s : state) :
  int_min < s.[protocol_version] <= int_max ->
  (forall tp ts,
     parse_sub_protocol (shell_cmd s) = Some (tp, ts) -> int_min < tp) ->
  version_not_raised s (final (exchange_versions f_out f_in s)).
Proof.
  intros Hpv Hhint. unfold exchange_versions, when at 1, cond.
  destruct (s.[remote_protocol] =? 0); [| apply version_not_raised_refl].
  apply bind_relates; [rel_side | |].
  - unfold when, cond. destruct (_ && _).
    + apply check_sub_protocol_not_raised; assumption.
    + apply version_not_raised_refl.
  - intros _.
    change (preserves version_not_raised
              (when (fun s => negb (truthy s.[read_batch]))
                 (write_int RERR_STREAMIO f_out (fun s => s.[protocol_version])) ;;
               v <- read_int RERR_STREAMIO f_in ;;
               assign remote_protocol (fun _ => v) ;;
               when (fun s => s.[protocol_version] >? s.[remote_protocol])
                 (assign protocol_version (fun s => s.[remote_protocol])))).
    apply preserves_bind; [rel_side | frame | intros _].
    apply preserves_bind; [rel_side | frame | intros v].
    apply preserves_bind; [rel_side | frame | intros _].
    apply clamp_not_raised.
Qed.

(** C9. [protocol_version] never goes up during the negotiation: not in
    [check_sub_protocol] (lines 77, 83, 90), not in the exchange with its
    clamp (line 115), and not in [setup_protocol] as a whole, whichever way
    it ends.  The hypotheses say that the two subtractions stay inside
    [int]: [protocol_version] is an [int] above [INT_MIN], and so is the
    first number of a usable hint. *)
Theorem protocol_version_never_raised (f_out f_in : Z) (s : state) :
  int_min < s.[protocol_version] <= int_max ->
  (forall tp ts,
     parse_sub_protocol (shell_cmd s) = Some (tp, ts) -> int_min < tp) ->
  version_not_raised s (final (check_sub_protocol s))
  /\ version_not_raised s (final (exchange_versions f_out f_in s))
  /\ version_not_raised s (final (setup_protocol f_out f_in s)).
Proof.
  intros Hpv Hhint. split; [| split].
  - apply check_sub_protocol_not_raised; assumption.
  - apply exchange_versions_not_raised; assumption.
  - unfold setup_protocol.
    rewrite (bind_Ret _ _ _ _ _ (allocate_extras_returns s)).
    pose proof (exchange_inputs_kept_by_allocation s) as Hkept.
    unfold keeps in Hkept.
    set (s1 := final (allocate_extras s)) in *.
    injection Hkept as Hpv1 _ _ _ _ Hcmd _ _ _ _.
    apply version_not_raised_trans with s1.
    { unfold version_not_raised. lia. }
    apply bind_relates; [rel_side | |].
    + apply exchange_versions_not_raised; rewrite ?Hpv1, ?Hcmd; assumption.
    + intros _ s2.
      apply (version_not_raised_keeps
               (check_versions ;; validate_features ;; register_partial_dir ;;
                exchange_seed f_out f_in)).
      frame_blocks.
Qed.

(** *** Incremental recursion *)

(** Line 212-216: the one assignment to [inc_recurse], guarded by
    [!preserve_hard_links]. *)
Lemma inc_recurse_assignment_frozen :
  preserves hard_links_freeze_inc_recurse
    (when inc_recurse_allowed (assign inc_recurse (fun _ => 1))).
Proof.
  apply preserves_when; [rel_side |].
  intros s Hallowed Hlinks. exfalso.
  unfold inc_recurse_allowed in Hallowed. rewrite Hlinks in Hallowed.
  rewrite !andb_false_r in Hallowed. simpl in Hallowed. discriminate.
Qed.

Lemma validate_features_frozen :
  preserves hard_links_freeze_inc_recurse validate_features.
Proof.
  unfold validate_features.
  apply preserves_bind; [rel_side | frame | intros _].
  apply preserves_bind; [rel_side | frame | intros _].
  apply preserves_cond_any; [frame |].
  apply preserves_when_any; [rel_side |].
  apply preserves_bind; [rel_side | | intros _; frame].
  apply inc_recurse_assignment_frozen.
Qed.

(** C6. With hard-link preservation requested, [inc_recurse] ends at 0
    (its initialiser, line 26), whatever the other globals hold and whatever
    version is negotiated, in particular 30 or more, and whichever way
    [setup_protocol] ends. *)
Theorem hard_links_disable_inc_recurse (f_out f_in : Z) (s : state) :
  s.[inc_recurse] = 0 ->
  truthy s.[preserve_hard_links] = true ->
  (final (setup_protocol f_out f_in s)).[inc_recurse] = 0.
Proof.
  intros Hinit Hlinks.
  assert (H : preserves hard_links_freeze_inc_recurse
                (setup_protocol f_out f_in)).
  { unfold setup_protocol.
    apply preserves_bind; [rel_side | frame_blocks | intros _].
    apply preserves_bind; [rel_side | frame_blocks | intros _].
    apply preserves_bind; [rel_side | frame_blocks | intros _].
    apply preserves_bind; [rel_side | | intros _; frame_blocks].
    apply validate_features_frozen. }
  destruct (H s Hlinks) as [Hinc _]. congruence.
Qed.

(** *** The feature gates *)

(** A gate has fired: the run has left with one feature error, and the
    premise that no earlier gate fires is contradicted. *)
Ltac gate_fires :=
  split; [reflexivity |]; eexists; repeat split;
  let Hg := fresh "Hg" in
  intros Hg; cbn in Hg; rewrite ?orb_true_r in Hg; discriminate Hg.

(** C2 (amended). Below protocol 29 (not at 29) a request for
    [prune_empty_dirs] makes the feature validation leave with
    [RERR_PROTOCOL] after exactly one error message, which is one of the
    feature errors; when none of the six earlier gates fires it is the
    message that names --prune-empty-dirs and the floor 29, with the
    negotiated version as its argument. *)
Theorem prune_empty_dirs_below_29 (s : state) :
  s.[protocol_version] < 29 ->
  truthy s.[prune_empty_dirs] = true ->
  let o := validate_features s in
  exit_code o = Some RERR_PROTOCOL
  /\ exists m,
       log (final o) = log s ++ [m]
       /\ msg_code m = FERROR
       /\ is_feature_format (msg_format m) = true
       /\ (earlier_gate s = false ->
           m = Message FERROR fmt_prune_empty_dirs
                 [AInt s.[protocol_version]]).
Proof.
  intros Hpv Hprune o. subst o.
  assert (H30 : (s.[protocol_version] <? 30) = true) by (apply Z.ltb_lt; lia).
  assert (H29 : (s.[protocol_version] <? 29) = true) by (apply Z.ltb_lt; lia).
  unfold earlier_gate.
  unfold validate_features, fatal, bind, when, cond, rprintf, exit_cleanup,
    assign, ret.
  rewrite H30.
  destruct ((s.[max_delete] =? 0) && truthy s.[am_sender]) eqn:G1; cbn.
  { gate_fires. }
  destruct (truthy s.[preserve_acls] && negb (truthy s.[local_server]))
    eqn:G2; cbn.
  { gate_fires. }
  destruct (truthy s.[preserve_xattrs] && negb (truthy s.[local_server]))
    eqn:G3; cbn.
  { gate_fires. }
  destruct (truthy s.[delete_mode] && _); cbn; rewrite ?H30; cbn;
    rewrite H29;
    (destruct (truthy s.[fuzzy_basis]) eqn:G4; cbn; [gate_fires |]);
    (destruct (truthy s.[basis_dir_cnt] && truthy s.[inplace]) eqn:G5; cbn;
     [gate_fires |]);
    (destruct (s.[basis_dir_cnt] >? 1) eqn:G6; cbn; [gate_fires |]);
    rewrite Hprune; cbn;
    (split; [reflexivity |]; eexists; repeat split).
Qed.

(** From protocol 30 on the feature validation returns and logs nothing. *)
Lemma validate_features_from_30 (s : state) :
  30 <= s.[protocol_version] ->
  returned (validate_features s) = true
  /\ log (final (validate_features s)) = log s.
Proof.
  intros Hpv.
  assert (H30 : (s.[protocol_version] <? 30) = false) by (apply Z.ltb_ge; lia).
  assert (H29 : (s.[protocol_version] <? 29) = false) by (apply Z.ltb_ge; lia).
  assert (G30 : (s.[protocol_version] >=? 30) = true) by (apply Z.geb_le; lia).
  unfold validate_features, fatal, bind, when, cond, rprintf, exit_cleanup,
    assign, ret.
  rewrite H30.
  destruct (truthy s.[delete_mode] && _); cbn; rewrite ?H30; cbn;
    rewrite H29, G30;
    match goal with
    | |- context [inc_recurse_allowed ?t] => destruct (inc_recurse_allowed t)
    end; cbn; auto.
Qed.

(** [setup_protocol] as what comes before the feature validation, and the
    rest. *)
Lemma setup_protocol_split (f_out f_in : Z) (s : state) :
  setup_protocol f_out f_in s
  = bind (allocate_extras ;; exchange_versions f_out f_in ;; check_versions)
      (fun _ => validate_features ;; register_partial_dir ;;
                exchange_seed f_out f_in) s.
Proof.
  unfold setup_protocol, bind.
  destruct (allocate_extras s) as [[] s1 | c s1]; [| reflexivity].
  destruct (exchange_versions f_out f_in s1) as [[] s2 | c s2];
    [| reflexivity].
  destruct (check_versions s2) as [[] s3 | c s3]; reflexivity.
Qed.

Lemma no_feature_error_before_validation (f_out f_in : Z) :
  preserves no_feature_error
    (allocate_extras ;; exchange_versions f_out f_in ;; check_versions).
Proof.
  apply preserves_bind; [rel_side | frame_blocks | intros _].
  apply preserves_bind; [rel_side | frame_blocks | intros _].
  unfold check_versions. frame.
Qed.

Lemma no_feature_error_after_validation (f_out f_in : Z) :
  preserves no_feature_error
    (register_partial_dir ;; exchange_seed f_out f_in).
Proof. frame_blocks. Qed.

Lemma version_kept_from_validation (f_out f_in : Z) :
  preserves (keeps (fun s => s.[protocol_version]))
    (validate_features ;; register_partial_dir ;; exchange_seed f_out f_in).
Proof. frame_blocks. Qed.

Lemma no_feature_error_In (s s' : state) :
  no_feature_error s s' ->
  exists l,
    log s' = log s ++ l
    /\ forall m, In m l -> ~ In (msg_format m) feature_formats.
Proof.
  intros [l [Hlog Hall]]. exists l. split; [exact Hlog |].
  intros m Hm Hin. rewrite forallb_forall in Hall.
  specialize (Hall m Hm). apply negb_true_iff in Hall.
  assert (Hex : is_feature_format (msg_format m) = true).
  { unfold is_feature_format. apply existsb_exists.
    exists (msg_format m). split; [exact Hin | apply String.eqb_refl]. }
  congruence.
Qed.

(** C10. When the negotiated [protocol_version] is 30 or more, no run of
    [setup_protocol] logs one of the seven feature errors, whatever is
    requested: what the run adds to the log contains none of their format
    strings. *)
Theorem no_feature_error_from_30 (f_out f_in : Z) (s : state) :
  let o := setup_protocol f_out f_in s in
  30 <= (final o).[protocol_version] ->
  exists l,
    log (final o) = log s ++ l
    /\ forall m, In m l -> ~ In (msg_format m) feature_formats.
Proof.
  intros o Hpv. subst o. apply no_feature_error_In.
  rewrite setup_protocol_split in *.
  pose proof (no_feature_error_before_validation f_out f_in s) as Hbefore.
  unfold bind at 1. unfold bind at 1 in Hpv.
  destruct ((allocate_extras ;; exchange_versions f_out f_in ;;
             check_versions) s) as [[] s3 | c s3]; simpl in Hbefore;
    [| exact Hbefore].
  apply no_feature_error_trans with s3; [exact Hbefore |].
  pose proof (version_kept_from_validation f_out f_in s3) as Hkept.
  unfold keeps in Hkept. rewrite Hkept in Hpv.
  destruct (validate_features_from_30 s3 Hpv) as [Hret Hlog].
  apply bind_relates; [rel_side | |].
  - apply keeps_log_no_feature_error. exact Hlog.
  - intros _. apply no_feature_error_after_validation.
Qed.

(** *** Reading a batch *)

(** Line 111-112: the one write of the version, guarded by [!read_batch]. *)
Lemma version_write_skipped_in_replay (f_out : Z) :
  preserves replay_sends_nothing
    (when (fun s => negb (truthy s.[read_batch]))
       (write_int RERR_STREAMIO f_out (fun s => s.[protocol_version]))).
Proof.
  apply preserves_when; [rel_side |].
  intros s Hlive Hreplay. rewrite Hreplay in Hlive. discriminate.
Qed.

Lemma replay_sends_nothing_before_seed (f_out f_in : Z) :
  preserves replay_sends_nothing
    (allocate_extras ;; exchange_versions f_out f_in ;; check_versions ;;
     validate_features ;; register_partial_dir).
Proof.
  apply preserves_bind; [rel_side | frame_blocks | intros _].
  apply preserves_bind; [rel_side | | intros _; frame_blocks].
  unfold exchange_versions.
  apply preserves_when_any; [rel_side |].
  apply preserves_bind; [rel_side | frame_blocks | intros _].
  apply preserves_bind; [rel_side | | intros _; frame].
  apply version_write_skipped_in_replay.
Qed.

(** [setup_protocol] as what comes before the seed exchange, and the seed
    exchange. *)
Lemma setup_protocol_split_seed (f_out f_in : Z) (s : state) :
  setup_protocol f_out f_in s
  = bind (allocate_extras ;; exchange_versions f_out f_in ;; check_versions ;;
          validate_features ;; register_partial_dir)
      (fun _ => exchange_seed f_out f_in) s.
Proof.
  unfold setup_protocol, bind.
  destruct (allocate_extras s) as [[] s1 | c s1]; [| reflexivity].
  destruct (exchange_versions f_out f_in s1) as [[] s2 | c s2];
    [| reflexivity].
  destruct (check_versions s2) as [[] s3 | c s3]; [| reflexivity].
  destruct (validate_features s3) as [[] s4 | c s4]; [| reflexivity].
  destruct (register_partial_dir s4) as [[] s5 | c s5]; reflexivity.
Qed.

(** The seed exchange writes nothing, or the seed. *)
Lemma exchange_seed_sent (f_out f_in : Z) (s : state) :
  let s' := final (exchange_seed f_out f_in s) in
  sent s' = sent s \/ sent s' = sent s ++ [(f_out, s'.[checksum_seed])].
Proof.
  unfold exchange_seed, cond, bind, when, cond, assign, write_int, read_int,
    ret.
  destruct (truthy s.[am_server]).
  - destruct (negb (truthy s.[checksum_seed])); cbn;
      (destruct (writable s); [right | left]; reflexivity).
  - left. destruct (pending s); reflexivity.
Qed.

(** In replay mode the only thing that a run can write is the seed of line
    230. *)
Lemma replay_writes_at_most_seed (f_out f_in : Z) (s : state) :
  truthy s.[read_batch] = true ->
  let s' := final (setup_protocol f_out f_in s) in
  sent s' = sent s \/ sent s' = sent s ++ [(f_out, s'.[checksum_seed])].
Proof.
  intros Hreplay s'. subst s'. rewrite setup_protocol_split_seed.
  pose proof (replay_sends_nothing_before_seed f_out f_in s Hreplay)
    as [Hsent _].
  rewrite final_bind.
  destruct ((allocate_extras ;; exchange_versions f_out f_in ;;
             check_versions ;; validate_features ;; register_partial_dir) s)
    as [[] s5 | c s5]; simpl in Hsent.
  - rewrite <- Hsent. apply exchange_seed_sent.
  - left. exact Hsent.
Qed.

Lemma check_sub_protocol_returns (s : state) :
  returned (check_sub_protocol s) = true.
Proof.
  unfold check_sub_protocol, compare_sub_protocol, bind, read, decr, assign,
    ret.
  destruct (parse_sub_protocol (shell_cmd s)) as [[tp ts] |].
  - repeat match goal with
           | |- context [if ?c then _ else _] => destruct c
           end; reflexivity.
  - destruct (truthy _); reflexivity.
Qed.

(** When reading a batch, the exchange returns as soon as there is a
    version to read, and it has written and logged nothing. *)
Lemma exchange_versions_replay (f_out f_in : Z) (s : state) :
  truthy s.[read_batch] = true ->
  (s.[remote_protocol] = 0 -> pending s <> []) ->
  exists s2,
    exchange_versions f_out f_in s = Ret tt s2
    /\ sent s2 = sent s /\ log s2 = log s
    /\ s2.[read_batch] = s.[read_batch].
Proof.
  intros Hreplay Hinput. unfold exchange_versions, when at 1, cond.
  destruct (Z.eqb_spec s.[remote_protocol] 0) as [E | E];
    [| exists s; auto].
  set (sub := when (fun s => truthy s.[am_server]
                             && negb (truthy s.[local_server]))
                check_sub_protocol).
  assert (Hsub : sub s = Ret tt (final (sub s))).
  { apply returned_Ret. unfold sub, when, cond.
    destruct (_ && _); [apply check_sub_protocol_returns | reflexivity]. }
  assert (Hkept : preserves
                    (keeps (fun s => (s.[read_batch], pending s, sent s,
                                      log s))) sub).
  { unfold sub. frame_blocks. }
  specialize (Hkept s). unfold keeps in Hkept.
  set (sa := final (sub s)) in *.
  injection Hkept as Hrb Hpend Hsent Hlog.
  rewrite (bind_Ret _ _ _ _ _ Hsub).
  unfold bind, when, cond, write_int, read_int, assign, ret.
  rewrite Hrb, Hreplay. cbn. rewrite Hpend.
  destruct (pending s) as [| v rest]; [elim (Hinput E); reflexivity |].
  cbn. destruct (_ >? _); eexists; (split; [reflexivity |]); cbn; auto.
Qed.

(** Line 117-121 on its own. *)
Lemma check_versions_batch_too_new (s : state) :
  truthy s.[read_batch] = true ->
  s.[remote_protocol] > s.[protocol_version] ->
  check_versions s
  = Exit RERR_PROTOCOL
      (set_log (log s ++ [Message FERROR fmt_batch_too_new
                            [AInt s.[remote_protocol];
                             AInt s.[protocol_version]]]) s).
Proof.
  intros Hreplay Hnewer. unfold check_versions.
  unfold bind at 1. unfold when at 1, cond.
  rewrite Hreplay. apply Z.gt_lt, Z.gtb_lt in Hnewer. rewrite Hnewer.
  reflexivity.
Qed.

(** C7. When reading a batch, a run of [setup_protocol] writes nothing
    other than, at most, the seed of line 230: the version is not written.
    And when the recorded version (available from the batch, or already in
    [remote_protocol]) ends above the local [protocol_version], the run
    leaves with [RERR_PROTOCOL] after logging the batch-too-new error with
    the two versions, having written nothing at all. *)
Theorem replay_rejects_newer_version (f_out f_in : Z) (s : state) :
  truthy s.[read_batch] = true ->
  let o := setup_protocol f_out f_in s in
  (sent (final o) = sent s
   \/ sent (final o) = sent s ++ [(f_out, (final o).[checksum_seed])])
  /\ ((s.[remote_protocol] = 0 -> pending s <> []) ->
      (final o).[remote_protocol] > (final o).[protocol_version] ->
      exit_code o = Some RERR_PROTOCOL
      /\ log (final o)
         = log s ++ [Message FERROR fmt_batch_too_new
                       [AInt (final o).[remote_protocol];
                        AInt (final o).[protocol_version]]]
      /\ sent (final o) = sent s).
Proof.
  intros Hreplay o. subst o. split.
  { apply replay_writes_at_most_seed. exact Hreplay. }
  intros Hinput. unfold setup_protocol.
  rewrite (bind_Ret _ _ _ _ _ (allocate_extras_returns s)).
  pose proof (exchange_inputs_kept_by_allocation s) as Hkept.
  unfold keeps in Hkept.
  set (s1 := final (allocate_extras s)) in *.
  injection Hkept as _ Hrem _ _ Hrb _ Hpend Hsent _ Hlog.
  destruct (exchange_versions_replay f_out f_in s1)
    as [s2 [Hrun [Hsent2 [Hlog2 Hrb2]]]].
  { congruence. }
  { rewrite Hrem, Hpend. exact Hinput. }
  rewrite (bind_Ret _ _ _ _ _ Hrun).
  pose proof (versions_kept_after_exchange f_out f_in s2) as Hrest.
  unfold keeps in Hrest. injection Hrest as -> ->.
  intros Hnewer.
  rewrite (bind_Exit _ _ _ _ _
             (check_versions_batch_too_new s2 ltac:(congruence) Hnewer)).
  cbn. repeat split; congruence.
Qed.

(** *** The partial-dir rule *)

Lemma lor_disjoint_bits (b p : Z) :
  Z.land b p = 0 ->
  Z.land (Z.lor b p) b = b /\ Z.land (Z.lor b p) p = p.
Proof.
  intros H. split.
  - rewrite Z.land_lor_distr_l, Z.land_diag, (Z.land_comm p b), H.
    apply Z.lor_0_r.
  - rewrite Z.land_lor_distr_l, Z.land_diag, H. apply Z.lor_0_l.
Qed.

(** Lines 221-223, bit by bit. *)
Lemma partial_dir_flags_bits (s : state) :
  MATCHFLG_PERISHABLE <> 0 ->
  Z.land (Z.lor MATCHFLG_NO_PREFIXES MATCHFLG_DIRECTORY) MATCHFLG_PERISHABLE
  = 0 ->
  Z.land (partial_dir_flags s) (Z.lor MATCHFLG_NO_PREFIXES MATCHFLG_DIRECTORY)
  = Z.lor MATCHFLG_NO_PREFIXES MATCHFLG_DIRECTORY
  /\ (Z.land (partial_dir_flags s) MATCHFLG_PERISHABLE <> 0
      <-> s.[am_sender] = 0 \/ 30 <= s.[protocol_version]).
Proof.
  intros Hper Hdisjoint. unfold partial_dir_flags, truthy.
  set (base := Z.lor MATCHFLG_NO_PREFIXES MATCHFLG_DIRECTORY) in *.
  destruct (lor_disjoint_bits base MATCHFLG_PERISHABLE Hdisjoint)
    as [Hbase Hbit].
  destruct (Z.eqb_spec s.[am_sender] 0) as [Es | Es];
    destruct (Z.geb_spec s.[protocol_version] 30) as [Ev | Ev]; cbn;
    rewrite ?Hbase, ?Hbit, ?Hdisjoint, ?Z.land_diag;
    (split; [reflexivity |]); split; intros; try tauto; try lia.
Qed.

(** C8 (amended). Line 220 asks for a requested path whose first character
    is not a slash, on a side that is not a server or is a local one; it does
    not ask for a non-empty path.  When that holds, one rule is added for the
    path, with the no-prefixes and directory flags, and with the perishable
    flag exactly when this side is not the sender or the protocol is 30 or
    more.  When it does not hold, no rule is added.  Either way the block
    returns and logs nothing. *)
Theorem partial_dir_rule_registration (s : state) :
  MATCHFLG_PERISHABLE <> 0 ->
  Z.land (Z.lor MATCHFLG_NO_PREFIXES MATCHFLG_DIRECTORY) MATCHFLG_PERISHABLE
  = 0 ->
  let o := register_partial_dir s in
  returned o = true
  /\ log (final o) = log s
  /\ (forall p, partial_dir_rule_due s p ->
        exists flags,
          filter_list (final o) = filter_list s ++ [Rule p flags 0]
          /\ Z.land flags (Z.lor MATCHFLG_NO_PREFIXES MATCHFLG_DIRECTORY)
             = Z.lor MATCHFLG_NO_PREFIXES MATCHFLG_DIRECTORY
          /\ (Z.land flags MATCHFLG_PERISHABLE <> 0
              <-> s.[am_sender] = 0 \/ 30 <= s.[protocol_version]))
  /\ ((forall p, ~ partial_dir_rule_due s p) ->
        filter_list (final o) = filter_list s).
Proof.
  intros Hper Hdisjoint o. subst o.
  unfold register_partial_dir, partial_dir_rule_due.
  destruct (partial_dir s) as [p |].
  2:{ cbn. repeat split; auto. intros p [H _]. discriminate. }
  destruct (Ascii.eqb_spec (deref p) "/") as [Eslash | Eslash]; cbn.
  { repeat split; auto. intros q [H [Hq _]]. injection H as <-. tauto. }
  destruct (truthy s.[am_server]) eqn:Hsrv; cbn.
  - destruct (truthy s.[local_server]) eqn:Hloc; cbn.
    + repeat split; auto.
      * intros q [H _]. injection H as <-.
        exists (partial_dir_flags s). split; [reflexivity |].
        apply partial_dir_flags_bits; assumption.
      * intros Hnone. exfalso. apply (Hnone p).
        apply truthy_true in Hloc. auto.
    + repeat split; auto.
      intros q [H [_ [Hq | Hq]]].
      * apply truthy_true in Hsrv. tauto.
      * apply truthy_false in Hloc. tauto.
  - repeat split; auto.
    + intros q [H _]. injection H as <-.
      exists (partial_dir_flags s). split; [reflexivity |].
      apply partial_dir_flags_bits; assumption.
    + intros Hnone. exfalso. apply (Hnone p).
      apply truthy_false in Hsrv. auto.
Qed.

(* ------------------------------------------------------------------ *)
(** *** Runs that return *)

(** Deciding the conditions of the code one at a time. *)
Ltac case_cond :=
  match goal with
  | |- context [?a <? ?b] => destruct (Z.ltb_spec a b)
  | |- context [?a >? ?b] => destruct (Z.gtb_spec a b)
  | |- context [?a >=? ?b] => destruct (Z.geb_spec a b)
  | |- context [?a =? ?b] => destruct (Z.eqb_spec a b)
  end; cbn.

Lemma bind_returned {A B} (m : M A) (k : A -> M B) (s : state) :
  returned (bind m k s) = true ->
  exists a s1, m s = Ret a s1 /\ returned (k a s1) = true.
Proof.
  unfold bind. destruct (m s) as [a s1 | c s1]; [| discriminate].
  intros H. exists a, s1. auto.
Qed.

Lemma preserves_Ret {A} (R : state -> state -> Prop) (m : M A)
    (s s' : state) (a : A) :
  preserves R m -> m s = Ret a s' -> R s s'.
Proof. intros H E. specialize (H s). rewrite E in H. exact H. Qed.

(** A run of [setup_protocol] that returns has gone through its six
    blocks, each of which returned. *)
Lemma setup_protocol_returned (f_out f_in : Z) (s : state) :
  returned (setup_protocol f_out f_in s) = true ->
  exists s1 s2 s3 s4 s5 s6,
    allocate_extras s = Ret tt s1
    /\ exchange_versions f_out f_in s1 = Ret tt s2
    /\ check_versions s2 = Ret tt s3
    /\ validate_features s3 = Ret tt s4
    /\ register_partial_dir s4 = Ret tt s5
    /\ exchange_seed f_out f_in s5 = Ret tt s6
    /\ setup_protocol f_out f_in s = Ret tt s6.
Proof.
  unfold setup_protocol. intros H.
  destruct (bind_returned _ _ _ H) as [[] [s1 [E1 H1]]].
  destruct (bind_returned _ _ _ H1) as [[] [s2 [E2 H2]]].
  destruct (bind_returned _ _ _ H2) as [[] [s3 [E3 H3]]].
  destruct (bind_returned _ _ _ H3) as [[] [s4 [E4 H4]]].
  destruct (bind_returned _ _ _ H4) as [[] [s5 [E5 H5]]].
  apply returned_Ret in H5. set (s6 := final _) in H5.
  exists s1, s2, s3, s4, s5, s6. repeat split; try assumption.
  rewrite (bind_Ret _ _ _ _ _ E1), (bind_Ret _ _ _ _ _ E2),
    (bind_Ret _ _ _ _ _ E3), (bind_Ret _ _ _ _ _ E4),
    (bind_Ret _ _ _ _ _ E5). exact H5.
Qed.

(** Lines 117-146: when the checks return, the two versions are in range,
    and only the log has changed. *)
Lemma check_versions_returned (s s' : state) :
  check_versions s = Ret tt s' ->
  (truthy s.[read_batch] = true ->
   s.[remote_protocol] <= s.[protocol_version])
  /\ MIN_PROTOCOL_VERSION <= s.[remote_protocol] <= MAX_PROTOCOL_VERSION
  /\ MIN_PROTOCOL_VERSION <= s.[protocol_version] <= PROTOCOL_VERSION.
Proof.
  unfold check_versions, fatal, bind, when, cond, rprintf, exit_cleanup, ret.
  destruct (truthy s.[read_batch]); cbn;
    repeat case_cond; try discriminate; intros _;
    repeat split; intros; try lia; try discriminate.
Qed.

(** Lines 109-110 as one statement. *)
Lemma sub_check_returns (s : state) :
  exists sa,
    when (fun s => truthy s.[am_server] && negb (truthy s.[local_server]))
      check_sub_protocol s = Ret tt sa
    /\ (sa.[read_batch], pending sa, sent sa, writable sa, log sa)
       = (s.[read_batch], pending s, sent s, writable s, log s).
Proof.
  set (sub := when (fun s => truthy s.[am_server]
                             && negb (truthy s.[local_server]))
                check_sub_protocol).
  exists (final (sub s)). split.
  - apply returned_Ret. unfold sub, when, cond.
    destruct (_ && _); [apply check_sub_protocol_returns | reflexivity].
  - assert (Hkept : preserves
                      (keeps (fun s => (s.[read_batch], pending s, sent s,
                                        writable s, log s))) sub).
    { unfold sub. frame_blocks. }
    apply Hkept.
Qed.

(** Lines 108-116 when the exchange takes place and returns: a version [r]
    was read, [protocol_version] is the minimum of [r] and the version [w]
    that lines 109-110 left, and [w] was written unless a batch is read. *)
Lemma exchange_versions_returned (f_out f_in : Z) (s s2 : state) :
  exchange_versions f_out f_in s = Ret tt s2 ->
  s.[remote_protocol] = 0 ->
  exists w r rest,
    pending s = r :: rest
    /\ pending s2 = rest
    /\ s2.[remote_protocol] = r
    /\ s2.[protocol_version] = Z.min w r
    /\ sent s2
       = sent s ++ (if truthy s.[read_batch] then [] else [(f_out, w)]).
Proof.
  intros Hrun Hremote.
  unfold exchange_versions, when at 1, cond in Hrun.
  rewrite Hremote in Hrun. cbn in Hrun.
  destruct (sub_check_returns s) as [sa [Hsub Hkept]].
  injection Hkept as Hrb Hpend Hsent Hwr _.
  rewrite (bind_Ret _ _ _ _ _ Hsub) in Hrun.
  unfold bind, when, cond, write_int, read_int, assign, ret in Hrun.
  rewrite Hrb in Hrun. exists sa.[protocol_version].
  destruct (truthy s.[read_batch]); cbn in Hrun.
  - rewrite Hpend in Hrun.
    destruct (pending s) as [| r rest]; [discriminate |]. cbn in Hrun.
    exists r, rest. revert Hrun. case_cond; intros Hrun;
      injection Hrun as <-; cbn; rewrite ?app_nil_r, ?Hsent;
      repeat split; lia.
  - rewrite Hwr in Hrun. destruct (writable s); [| discriminate].
    cbn in Hrun. rewrite Hpend in Hrun.
    destruct (pending s) as [| r rest]; [discriminate |]. cbn in Hrun.
    exists r, rest. revert Hrun. case_cond; intros Hrun;
      injection Hrun as <-; cbn; rewrite ?Hsent; repeat split; lia.
Qed.

(** X1. A run of [setup_protocol] that returns leaves [protocol_version]
    between [MIN_PROTOCOL_VERSION] and [PROTOCOL_VERSION] and
    [remote_protocol] between [MIN_PROTOCOL_VERSION] and
    [MAX_PROTOCOL_VERSION]; [protocol_version] is not above
    [remote_protocol] when the exchange took place, and not below it when a
    batch is read. *)
Theorem returned_versions_in_range (f_out f_in : Z) (s : state) :
  returned (setup_protocol f_out f_in s) = true ->
  let s' := final (setup_protocol f_out f_in s) in
  MIN_PROTOCOL_VERSION <= s'.[protocol_version] <= PROTOCOL_VERSION
  /\ MIN_PROTOCOL_VERSION <= s'.[remote_protocol] <= MAX_PROTOCOL_VERSION
  /\ (s.[remote_protocol] = 0 ->
      s'.[protocol_version] <= s'.[remote_protocol])
  /\ (truthy s.[read_batch] = true ->
      s'.[remote_protocol] <= s'.[protocol_version]).
Proof.
  intros Hret s'. subst s'.
  destruct (setup_protocol_returned _ _ _ Hret)
    as [s1 [s2 [s3 [s4 [s5 [s6 [E1 [E2 [E3 [E4 [E5 [E6 E]]]]]]]]]]]].
  pose proof (preserves_Ret _ _ _ _ _ exchange_inputs_kept_by_allocation E1)
    as K1.
  unfold keeps in K1. injection K1 as _ Hrem _ _ Hrb _ _ _ _ _.
  assert (K2 : s2.[read_batch] = s1.[read_batch]).
  { apply (preserves_Ret (keeps (fun s => s.[read_batch]))
             (exchange_versions f_out f_in) s1 s2 tt);
      [frame_blocks | exact E2]. }
  assert (Hrest : (check_versions ;; validate_features ;;
                   register_partial_dir ;; exchange_seed f_out f_in) s2
                  = Ret tt s6).
  { rewrite (bind_Ret _ _ _ _ _ E3), (bind_Ret _ _ _ _ _ E4),
      (bind_Ret _ _ _ _ _ E5). exact E6. }
  pose proof (preserves_Ret _ _ _ _ _
                (versions_kept_after_exchange f_out f_in) Hrest) as K3.
  unfold keeps in K3. injection K3 as Hpv6 Hrem6.
  rewrite E. cbn. rewrite Hpv6, Hrem6.
  destruct (check_versions_returned _ _ E3) as [Hbatch [Hremote Hlocal]].
  repeat split; try lia.
  - intros H0. rewrite <- Hrem in H0.
    destruct (exchange_versions_returned _ _ _ _ E2 H0)
      as [w [r [rest [_ [_ [Hr [Hmin _]]]]]]]. lia.
  - intros Hreplay. apply Hbatch. congruence.
Qed.

(** Boolean conditions of the code as propositions. *)
Ltac bool_to_prop :=
  repeat match goal with
         | H : _ && _ = true |- _ => apply andb_true_iff in H; destruct H
         | H : _ && _ = false |- _ =>
             apply andb_false_iff in H; destruct H
         | H : _ || _ = true |- _ => apply orb_true_iff in H; destruct H
         | H : _ || _ = false |- _ => apply orb_false_iff in H; destruct H
         | H : negb _ = true |- _ => apply negb_true_iff in H
         | H : negb _ = false |- _ => apply negb_false_iff in H
         | H : truthy _ = true |- _ => apply truthy_true in H
         | H : truthy _ = false |- _ => apply truthy_false in H
         | H : (_ <? _) = true |- _ => apply Z.ltb_lt in H
         | H : (_ <? _) = false |- _ => apply Z.ltb_ge in H
         | H : (_ >? _) = true |- _ => apply Z.gtb_lt in H
         | H : (_ >? _) = false |- _ =>
             rewrite Z.gtb_ltb in H; apply Z.ltb_ge in H
         | H : (_ >=? _) = true |- _ => apply Z.geb_le in H
         | H : (_ >=? _) = false |- _ =>
             rewrite Z.geb_leb in H; apply Z.leb_gt in H
         | H : (_ =? _) = true |- _ => apply Z.eqb_eq in H
         | H : (_ =? _) = false |- _ => apply Z.eqb_neq in H
         end.

(** Going through the conditions of a run that is known to return. *)
Ltac follow_run H :=
  repeat match type of H with
         | context [if ?c then _ else _] =>
             destruct c eqn:?; cbn in H; try discriminate H
         end.

(** Lines 148-210 when the validation returns: no option is left that the
    protocol cannot serve. *)
Lemma validate_features_gates (s s' : state) :
  validate_features s = Ret tt s' ->
  (s.[protocol_version] < 30 ->
   ~ (s.[max_delete] = 0 /\ s.[am_sender] <> 0)
   /\ (s.[preserve_acls] <> 0 -> s.[local_server] <> 0)
   /\ (s.[preserve_xattrs] <> 0 -> s.[local_server] <> 0))
  /\ (s.[protocol_version] < 29 ->
      s.[fuzzy_basis] = 0
      /\ (s.[basis_dir_cnt] = 0 \/ s.[inplace] = 0)
      /\ s.[basis_dir_cnt] <= 1
      /\ s.[prune_empty_dirs] = 0).
Proof.
  intros Hrun.
  unfold validate_features, fatal, bind, when, cond, rprintf, exit_cleanup,
    assign, ret in Hrun.
  follow_run Hrun; bool_to_prop; clear Hrun;
    (split; intros; repeat split; intros; try tauto; try lia).
Qed.

(** The blocks before and after the feature validation, in a run that
    returns. *)
Lemma returned_through_validation (f_out f_in : Z) (s : state) :
  returned (setup_protocol f_out f_in s) = true ->
  exists s3 s4 s6,
    (allocate_extras ;; exchange_versions f_out f_in ;; check_versions) s
    = Ret tt s3
    /\ validate_features s3 = Ret tt s4
    /\ (register_partial_dir ;; exchange_seed f_out f_in) s4 = Ret tt s6
    /\ setup_protocol f_out f_in s = Ret tt s6.
Proof.
  intros Hret.
  destruct (setup_protocol_returned _ _ _ Hret)
    as [s1 [s2 [s3 [s4 [s5 [s6 [E1 [E2 [E3 [E4 [E5 [E6 E]]]]]]]]]]]].
  exists s3, s4, s6. repeat split; try assumption.
  - rewrite (bind_Ret _ _ _ _ _ E1), (bind_Ret _ _ _ _ _ E2). exact E3.
  - rewrite (bind_Ret _ _ _ _ _ E5). exact E6.
Qed.

(** The options that the feature validation reads are not changed before
    it. *)
Lemma options_kept_before_validation (f_out f_in : Z) :
  preserves
    (keeps (fun s =>
              (s.[max_delete], s.[am_sender], s.[preserve_acls],
               s.[preserve_xattrs], s.[local_server], s.[fuzzy_basis],
               s.[basis_dir_cnt], s.[inplace], s.[prune_empty_dirs],
               (s.[delete_mode], s.[delete_before], s.[delete_during],
                s.[delete_after]),
               (s.[recurse], s.[allow_inc_recurse], s.[preserve_hard_links],
                s.[delay_updates], s.[relative_paths], s.[implied_dirs],
                s.[use_qsort]),
               (s.[inc_recurse], s.[need_messages_from_generator]))))
    (allocate_extras ;; exchange_versions f_out f_in ;; check_versions).
Proof. frame_blocks. Qed.

(** What the feature validation sets is not changed after it, and neither
    is [protocol_version]. *)
Lemma settings_kept_after_validation (f_out f_in : Z) :
  preserves
    (keeps (fun s =>
              (s.[protocol_version], s.[delete_before], s.[delete_during],
               s.[delete_after], s.[inc_recurse],
               s.[need_messages_from_generator])))
    (register_partial_dir ;; exchange_seed f_out f_in).
Proof. frame_blocks. Qed.

Lemma version_kept_by_validation :
  preserves (keeps (fun s => s.[protocol_version])) validate_features.
Proof. frame_blocks. Qed.

(** X2. When [setup_protocol] returns, every requested option is one that
    the negotiated protocol serves: below 30 there is no --max-delete=0 on
    the sender and no ACLs or extended attributes unless the server is
    local; below 29 there is no --fuzzy, no basis directory together with
    --inplace, at most one basis directory and no --prune-empty-dirs. *)
Theorem returned_options_supported (f_out f_in : Z) (s : state) :
  returned (setup_protocol f_out f_in s) = true ->
  let v := (final (setup_protocol f_out f_in s)).[protocol_version] in
  (v < 30 ->
   ~ (s.[max_delete] = 0 /\ s.[am_sender] <> 0)
   /\ (s.[preserve_acls] <> 0 -> s.[local_server] <> 0)
   /\ (s.[preserve_xattrs] <> 0 -> s.[local_server] <> 0))
  /\ (v < 29 ->
      s.[fuzzy_basis] = 0
      /\ (s.[basis_dir_cnt] = 0 \/ s.[inplace] = 0)
      /\ s.[basis_dir_cnt] <= 1
      /\ s.[prune_empty_dirs] = 0).
Proof.
  intros Hret v. subst v.
  destruct (returned_through_validation _ _ _ Hret)
    as [s3 [s4 [s6 [Ebefore [Evalid [Eafter E]]]]]].
  rewrite E. cbn.
  pose proof (preserves_Ret _ _ _ _ _
                (settings_kept_after_validation f_out f_in) Eafter) as Ka.
  unfold keeps in Ka. injection Ka as -> _ _ _ _ _.
  rewrite (preserves_Ret _ _ _ _ _ version_kept_by_validation Evalid).
  pose proof (preserves_Ret _ _ _ _ _
                (options_kept_before_validation f_out f_in) Ebefore) as Kb.
  unfold keeps in Kb.
  injection Kb as <- <- <- <- <- <- <- <- <- _ _ _ _ _ _ _ _ _ _ _ _ _.
  apply (validate_features_gates _ _ Evalid).
Qed.

(** The sum of line 172 on flags that are 0 or 1. *)
Lemma flag_sum_wrap (b d a : Z) :
  0 <= b <= 1 -> 0 <= d <= 1 -> 0 <= a <= 1 ->
  wrap_int (wrap_int (b + d) + a) = b + d + a.
Proof.
  intros Hb Hd Ha.
  rewrite (wrap_int_id (b + d)) by (unfold int_range, int_min, int_max; lia).
  apply wrap_int_id. unfold int_range, int_min, int_max. lia.
Qed.

(** Lines 172-177 when the validation returns. *)
Lemma validate_features_delete_timing (s s' : state) :
  validate_features s = Ret tt s' ->
  s'.[delete_after] = s.[delete_after]
  /\ (s.[delete_mode] <> 0 ->
      s.[delete_before] = 0 -> s.[delete_during] = 0 ->
      s.[delete_after] = 0 ->
      (s.[protocol_version] < 30 ->
       s'.[delete_before] = 1 /\ s'.[delete_during] = 0)
      /\ (30 <= s.[protocol_version] ->
          s'.[delete_before] = 0 /\ s'.[delete_during] = 1))
  /\ (s.[delete_mode] = 0 ->
      s'.[delete_before] = s.[delete_before]
      /\ s'.[delete_during] = s.[delete_during])
  /\ (0 <= s.[delete_before] <= 1 -> 0 <= s.[delete_during] <= 1 ->
      0 <= s.[delete_after] <= 1 ->
      0 < s.[delete_before] + s.[delete_during] + s.[delete_after] ->
      s'.[delete_before] = s.[delete_before]
      /\ s'.[delete_during] = s.[delete_during]).
Proof.
  intros Hrun.
  unfold validate_features, fatal, bind, when, cond, rprintf, exit_cleanup,
    assign, ret in Hrun.
  follow_run Hrun; injection Hrun as <-; cbn; bool_to_prop;
    (split; [reflexivity |]; split; [| split]; intros;
     repeat split; intros;
     try (rewrite flag_sum_wrap in * by lia);
     try congruence; try lia).
Qed.

(** X3. When [setup_protocol] returns: a deletion requested without any of
    the three timing flags ends with [delete_before] alone set below
    protocol 30 and [delete_during] alone set from 30 on; without a deletion
    request, or with a timing flag already set (the flags being 0 or 1), the
    three flags are left as they were. *)
Theorem returned_delete_timing (f_out f_in : Z) (s : state) :
  returned (setup_protocol f_out f_in s) = true ->
  let s' := final (setup_protocol f_out f_in s) in
  s'.[delete_after] = s.[delete_after]
  /\ (s.[delete_mode] <> 0 ->
      s.[delete_before] = 0 -> s.[delete_during] = 0 ->
      s.[delete_after] = 0 ->
      (s'.[protocol_version] < 30 ->
       s'.[delete_before] = 1 /\ s'.[delete_during] = 0)
      /\ (30 <= s'.[protocol_version] ->
          s'.[delete_before] = 0 /\ s'.[delete_during] = 1))
  /\ (s.[delete_mode] = 0 ->
      s'.[delete_before] = s.[delete_before]
      /\ s'.[delete_during] = s.[delete_during])
  /\ (0 <= s.[delete_before] <= 1 -> 0 <= s.[delete_during] <= 1 ->
      0 <= s.[delete_after] <= 1 ->
      0 < s.[delete_before] + s.[delete_during] + s.[delete_after] ->
      s'.[delete_before] = s.[delete_before]
      /\ s'.[delete_during] = s.[delete_during]).
Proof.
  intros Hret s'. subst s'.
  destruct (returned_through_validation _ _ _ Hret)
    as [s3 [s4 [s6 [Ebefore [Evalid [Eafter E]]]]]].
  rewrite E. cbn.
  pose proof (preserves_Ret _ _ _ _ _
                (settings_kept_after_validation f_out f_in) Eafter) as Ka.
  unfold keeps in Ka. injection Ka as -> -> -> -> _ _.
  rewrite (preserves_Ret _ _ _ _ _ version_kept_by_validation Evalid).
  pose proof (preserves_Ret _ _ _ _ _
                (options_kept_before_validation f_out f_in) Ebefore) as Kb.
  unfold keeps in Kb.
  injection Kb as _ _ _ _ _ _ _ _ _ <- <- <- <- _ _ _ _ _ _ _ _ _.
  apply (validate_features_delete_timing _ _ Evalid).
Qed.

Lemma inc_recurse_allowed_iff (s : state) :
  inc_recurse_allowed s = true <-> inc_recurse_conditions s.
Proof.
  unfold inc_recurse_allowed, inc_recurse_conditions.
  rewrite !andb_true_iff, orb_true_iff, !negb_true_iff, !truthy_true,
    !truthy_false.
  tauto.
Qed.

(** The default of line 176 does not bear on the condition of line 212. *)
Lemma inc_recurse_allowed_delete_during (v : Z) (s : state) :
  inc_recurse_allowed (set_int delete_during v s) = inc_recurse_allowed s.
Proof. reflexivity. Qed.

(** Lines 211-218 when the validation returns. *)
Lemma validate_features_inc_recurse (s s' : state) :
  validate_features s = Ret tt s' ->
  s'.[inc_recurse]
  = (if (30 <=? s.[protocol_version]) && inc_recurse_allowed s
     then 1 else s.[inc_recurse])
  /\ s'.[need_messages_from_generator]
     = (if 30 <=? s.[protocol_version]
        then 1 else s.[need_messages_from_generator]).
Proof.
  intros Hrun.
  unfold validate_features, fatal, bind, when, cond, rprintf, exit_cleanup,
    assign, ret in Hrun.
  destruct (Z.leb_spec 30 s.[protocol_version]) as [Hv | Hv].
  - assert (H30 : (s.[protocol_version] <? 30) = false)
      by (apply Z.ltb_ge; lia).
    assert (H29 : (s.[protocol_version] <? 29) = false)
      by (apply Z.ltb_ge; lia).
    assert (G30 : (s.[protocol_version] >=? 30) = true)
      by (apply Z.geb_le; lia).
    rewrite H30 in Hrun.
    destruct (truthy s.[delete_mode] && _); cbn in Hrun;
      rewrite ?H30 in Hrun; cbn in Hrun; rewrite H29, G30 in Hrun;
      rewrite ?inc_recurse_allowed_delete_during in Hrun;
      cbn; destruct (inc_recurse_allowed s); cbn in Hrun;
      injection Hrun as <-; split; reflexivity.
  - assert (G30 : (s.[protocol_version] >=? 30) = false).
    { rewrite Z.geb_leb. apply Z.leb_gt. lia. }
    cbn. follow_run Hrun; try (bool_to_prop; lia);
      injection Hrun as <-; split; reflexivity.
Qed.

(** X4. When [setup_protocol] returns with [inc_recurse] starting at its
    initialiser 0: [inc_recurse] ends at 1 exactly when the negotiated
    protocol is 30 or more and the options allow it (recursion, incremental
    recursion allowed, no hard links, no deletion before or after, no
    delayed updates, no relative paths without implied directories, no
    qsort, no pruning), and at 0 otherwise.  [need_messages_from_generator]
    ends at 1 from protocol 30 on and is left alone below; so incremental
    recursion is never on without it. *)
Theorem returned_inc_recurse (f_out f_in : Z) (s : state) :
  returned (setup_protocol f_out f_in s) = true ->
  s.[inc_recurse] = 0 ->
  let s' := final (setup_protocol f_out f_in s) in
  (s'.[inc_recurse] = 1
   <-> 30 <= s'.[protocol_version] /\ inc_recurse_conditions s)
  /\ (s'.[inc_recurse] = 1 \/ s'.[inc_recurse] = 0)
  /\ (30 <= s'.[protocol_version] -> s'.[need_messages_from_generator] = 1)
  /\ (s'.[protocol_version] < 30 ->
      s'.[need_messages_from_generator] = s.[need_messages_from_generator])
  /\ (s'.[inc_recurse] = 1 -> s'.[need_messages_from_generator] = 1).
Proof.
  intros Hret Hinit s'. subst s'.
  destruct (returned_through_validation _ _ _ Hret)
    as [s3 [s4 [s6 [Ebefore [Evalid [Eafter E]]]]]].
  rewrite E. cbn.
  pose proof (preserves_Ret _ _ _ _ _
                (settings_kept_after_validation f_out f_in) Eafter) as Ka.
  unfold keeps in Ka. injection Ka as -> _ _ _ -> ->.
  rewrite (preserves_Ret _ _ _ _ _ version_kept_by_validation Evalid).
  destruct (validate_features_inc_recurse _ _ Evalid) as [Hinc Hneed].
  rewrite Hinc, Hneed.
  assert (Hallowed : inc_recurse_allowed s3 = inc_recurse_allowed s).
  { pose proof (preserves_Ret _ _ _ _ _
                  (options_kept_before_validation f_out f_in) Ebefore) as Kb.
    unfold keeps in Kb.
    injection Kb as _ _ _ _ _ _ _ _ Hprune _ Hdb _ Hda Hrec Hall Hhl Hdu Hrp
      Hid Hq _ _.
    unfold inc_recurse_allowed. congruence. }
  assert (Hi3 : s3.[inc_recurse] = 0
                /\ s3.[need_messages_from_generator]
                   = s.[need_messages_from_generator]).
  { pose proof (preserves_Ret _ _ _ _ _
                  (options_kept_before_validation f_out f_in) Ebefore) as Kb.
    unfold keeps in Kb.
    injection Kb as _ _ _ _ _ _ _ _ _ _ _ _ _ _ _ _ _ _ _ _ Hi Hn.
    split; congruence. }
  destruct Hi3 as [Hi3 Hn3]. rewrite Hallowed, Hi3, Hn3.
  rewrite <- (inc_recurse_allowed_iff s).
  destruct (Z.leb_spec 30 s3.[protocol_version]) as [Hv | Hv];
    destruct (inc_recurse_allowed s); cbn;
    intuition (try lia; try discriminate).
Qed.

(** Lines 95-106 in general. *)
Lemma allocate_extras_layout (s : state) :
  0 <= s.[file_extra_cnt] ->
  0 <= PTR_EXTRA_LEN ->
  s.[file_extra_cnt] + PTR_EXTRA_LEN + 5 <= int_max ->
  let base := s.[file_extra_cnt]
              + (if truthy s.[am_sender] then PTR_EXTRA_LEN else 1) in
  let uid := Z.b2z (truthy s.[preserve_uid]) in
  let gid := Z.b2z (truthy s.[preserve_gid]) in
  let acls := Z.b2z (truthy s.[preserve_acls]
                     && negb (truthy s.[am_sender])) in
  let xattrs := Z.b2z (truthy s.[preserve_xattrs]) in
  let s' := final (allocate_extras s) in
  s'.[uid_ndx] = (if uid =? 1 then base + 1 else s.[uid_ndx])
  /\ s'.[gid_ndx] = (if gid =? 1 then base + uid + 1 else s.[gid_ndx])
  /\ s'.[acls_ndx]
     = (if acls =? 1 then base + uid + gid + 1 else s.[acls_ndx])
  /\ s'.[xattrs_ndx]
     = (if xattrs =? 1 then base + uid + gid + acls + 1 else s.[xattrs_ndx])
  /\ s'.[file_extra_cnt] = base + uid + gid + acls + xattrs.
Proof.
  intros Hcnt Hlen Hmax. cbv zeta.
  unfold allocate_extras, bind, when, cond, assign, incr, pre_incr, ret.
  unfold int_max in Hmax.
  assert (W : forall z, 0 <= z <= s.[file_extra_cnt] + PTR_EXTRA_LEN + 5 ->
                        wrap_int z = z).
  { intros z Hz. apply wrap_int_id. unfold int_range, int_min, int_max. lia. }
  destruct (truthy s.[am_sender]) eqn:Hsender; cbn;
    destruct (truthy s.[preserve_uid]); cbn;
    destruct (truthy s.[preserve_gid]); cbn;
    destruct (truthy s.[preserve_acls]); cbn; rewrite ?Hsender; cbn;
    destruct (truthy s.[preserve_xattrs]); cbn;
    repeat match goal with
           | |- context [wrap_int ?z] => rewrite (W z) by lia
           end;
    repeat split; lia.
Qed.

(** X5. The extra-attribute indexes are handed out in the order owner,
    group, ACL, extended attributes, each requested one taking the next
    number after the baseline ([PTR_EXTRA_LEN] on the sender, 1 on the
    receiver, on top of the count so far); the ACL index is handed out on
    the receiver only; an attribute that is not requested takes no number
    and keeps its index; the final count is the baseline plus the number of
    indexes handed out.  This holds however [setup_protocol] ends. *)
Theorem extras_layout (f_out f_in : Z) (s : state) :
  0 <= s.[file_extra_cnt] ->
  0 <= PTR_EXTRA_LEN ->
  s.[file_extra_cnt] + PTR_EXTRA_LEN + 5 <= int_max ->
  let base := s.[file_extra_cnt]
              + (if truthy s.[am_sender] then PTR_EXTRA_LEN else 1) in
  let uid := Z.b2z (truthy s.[preserve_uid]) in
  let gid := Z.b2z (truthy s.[preserve_gid]) in
  let acls := Z.b2z (truthy s.[preserve_acls]
                     && negb (truthy s.[am_sender])) in
  let xattrs := Z.b2z (truthy s.[preserve_xattrs]) in
  let s' := final (setup_protocol f_out f_in s) in
  s'.[uid_ndx] = (if uid =? 1 then base + 1 else s.[uid_ndx])
  /\ s'.[gid_ndx] = (if gid =? 1 then base + uid + 1 else s.[gid_ndx])
  /\ s'.[acls_ndx]
     = (if acls =? 1 then base + uid + gid + 1 else s.[acls_ndx])
  /\ s'.[xattrs_ndx]
     = (if xattrs =? 1 then base + uid + gid + acls + 1 else s.[xattrs_ndx])
  /\ s'.[file_extra_cnt] = base + uid + gid + acls + xattrs.
Proof.
  intros Hcnt Hlen Hmax. cbv zeta.
  unfold setup_protocol.
  rewrite (bind_Ret _ _ _ _ _ (allocate_extras_returns s)).
  pose proof (extras_kept_after_allocation f_out f_in
                (final (allocate_extras s))) as Hkept.
  unfold keeps in Hkept. injection Hkept as -> -> -> -> ->.
  apply (allocate_extras_layout s Hcnt Hlen Hmax).
Qed.

(* ------------------------------------------------------------------ *)
(** *** The sub-protocol check, the remaining cases *)

(** X6. Lines 87-90, for a usable hint whose first number is not below
    [protocol_version].  A peer that is ahead counts as a final release:
    the version goes down by one exactly when [our_sub] is non-zero.  A peer
    at the same version keeps it exactly when its sub-protocol equals
    [our_sub], and takes it down by one otherwise.  [protocol_version] is an
    [int] above [INT_MIN]. *)
Theorem hint_not_behind (s : state) (tp ts : Z) :
  parse_sub_protocol (shell_cmd s) = Some (tp, ts) ->
  s.[protocol_version] <= tp ->
  int_min < s.[protocol_version] <= int_max ->
  let our_sub := our_sub_protocol s.[protocol_version] in
  let v' := (final (check_sub_protocol s)).[protocol_version] in
  (s.[protocol_version] < tp ->
   (our_sub = 0 -> v' = s.[protocol_version])
   /\ (our_sub <> 0 -> v' = s.[protocol_version] - 1))
  /\ (tp = s.[protocol_version] ->
      (ts = our_sub -> v' = s.[protocol_version])
      /\ (ts <> our_sub -> v' = s.[protocol_version] - 1)).
Proof.
  intros Hparse Hle Hrange our_sub v'. subst our_sub v'.
  rewrite (check_sub_protocol_parsed _ _ _ Hparse).
  unfold compare_sub_protocol, bind, read, decr, assign, ret.
  assert (W : wrap_int (s.[protocol_version] - 1) = s.[protocol_version] - 1).
  { apply wrap_int_id. unfold int_range. lia. }
  destruct (Z.ltb_spec tp s.[protocol_version]); [lia |].
  destruct (Z.gtb_spec tp s.[protocol_version]);
    case_cond; rewrite ?W; repeat split; intros; try lia; congruence.
Qed.

Lemma set_int_other (x y : var) (v : Z) (s : state) :
  x <> y -> (set_int y v s).[x] = s.[x].
Proof.
  intros Hxy. cbn. unfold var_eqb.
  destruct (Pos.eqb_spec (var_index x) (var_index y)) as [E | E];
    [| reflexivity].
  exfalso. apply Hxy. destruct x, y; try reflexivity; discriminate E.
Qed.

(** X7. [check_sub_protocol] always returns, and all it changes is
    [protocol_version]: no other global, nothing written, read or logged, no
    rule added.  The new version is the old one, the old one less one, or,
    for a usable hint whose first number is below the old version, that
    number less one.  [protocol_version] and the first number of a usable
    hint are [int]s above [INT_MIN]. *)
Theorem check_sub_protocol_effect (s : state) :
  int_min < s.[protocol_version] <= int_max ->
  (forall tp ts,
     parse_sub_protocol (shell_cmd s) = Some (tp, ts) -> int_min < tp) ->
  let o := check_sub_protocol s in
  returned o = true
  /\ (forall x, x <> protocol_version -> (final o).[x] = s.[x])
  /\ (sent (final o), pending (final o), log (final o),
      filter_list (final o), writable (final o))
     = (sent s, pending s, log s, filter_list s, writable s)
  /\ ((final o).[protocol_version] = s.[protocol_version]
      \/ (final o).[protocol_version] = s.[protocol_version] - 1
      \/ exists tp ts,
           parse_sub_protocol (shell_cmd s) = Some (tp, ts)
           /\ tp < s.[protocol_version]
           /\ (final o).[protocol_version] = tp - 1).
Proof.
  intros Hrange Hhint o. subst o.
  split; [apply check_sub_protocol_returns |].
  split; [| split].
  - apply (preserves_check_sub_protocol
             (fun s s' => forall x, x <> protocol_version -> s'.[x] = s.[x])).
    + reflexivity.
    + intros v s0 x Hx. apply set_int_other. exact Hx.
  - apply (keeps_check_sub_protocol
             (fun s => (sent s, pending s, log s, filter_list s,
                        writable s))).
    reflexivity.
  - assert (W : wrap_int (s.[protocol_version] - 1)
                = s.[protocol_version] - 1).
    { apply wrap_int_id. unfold int_range. lia. }
    destruct (parse_sub_protocol (shell_cmd s)) as [[tp ts] |] eqn:Hparse.
    + rewrite (check_sub_protocol_parsed _ _ _ Hparse).
      specialize (Hhint tp ts eq_refl).
      unfold compare_sub_protocol, bind, read, decr, assign, ret.
      destruct (Z.ltb_spec tp s.[protocol_version]).
      * destruct (truthy ts); cbn; [| auto].
        right. right. exists tp, ts. repeat split; [exact H |].
        apply wrap_int_id. unfold int_range. lia.
      * destruct (negb _); cbn; rewrite ?W; auto.
    + unfold check_sub_protocol, bind, read, decr, assign, ret.
      rewrite Hparse. destruct (truthy _); cbn; rewrite ?W; auto.
Qed.

(* ------------------------------------------------------------------ *)
(** *** The exchange, the remaining cases *)

(** The seed exchange reads nothing, or the seed. *)
Lemma exchange_seed_pending (f_out f_in : Z) (s : state) :
  let s' := final (exchange_seed f_out f_in s) in
  (s'.[protocol_version], s'.[remote_protocol])
  = (s.[protocol_version], s.[remote_protocol])
  /\ (pending s' = pending s
      \/ pending s = s'.[checksum_seed] :: pending s').
Proof.
  unfold exchange_seed, cond, bind, when, cond, assign, write_int, read_int,
    ret.
  destruct (truthy s.[am_server]).
  - destruct (negb (truthy s.[checksum_seed])); cbn;
      destruct (writable s); cbn; (split; [reflexivity | left; reflexivity]).
  - destruct (pending s) as [| v rest] eqn:E; cbn; rewrite ?E;
      (split; [reflexivity |]); [left | right]; reflexivity.
Qed.

(** X8. When [remote_protocol] is already set on entry, the exchange of
    lines 108-116 is skipped: [setup_protocol] leaves [protocol_version] and
    [remote_protocol] as they were, writes nothing other than, at most, the
    seed, and reads nothing other than, at most, the seed. *)
Theorem preset_remote_skips_exchange (f_out f_in : Z) (s : state) :
  s.[remote_protocol] <> 0 ->
  let s' := final (setup_protocol f_out f_in s) in
  s'.[protocol_version] = s.[protocol_version]
  /\ s'.[remote_protocol] = s.[remote_protocol]
  /\ (sent s' = sent s
      \/ sent s' = sent s ++ [(f_out, s'.[checksum_seed])])
  /\ (pending s' = pending s
      \/ pending s = s'.[checksum_seed] :: pending s').
Proof.
  intros Hset s'. subst s'.
  set (R := fun s s' : state =>
              s.[remote_protocol] <> 0 ->
              (s'.[protocol_version], s'.[remote_protocol], sent s',
               pending s')
              = (s.[protocol_version], s.[remote_protocol], sent s,
                 pending s)).
  assert (Rrefl : forall s, R s s) by (intros s0 _; reflexivity).
  assert (Rtrans : forall s1 s2 s3, R s1 s2 -> R s2 s3 -> R s1 s3).
  { unfold R. intros s1 s2 s3 H12 H23 H1. specialize (H12 H1).
    injection H12 as E1 E2 E3 E4. rewrite <- E2 in H1.
    specialize (H23 H1). congruence. }
  assert (Rkeeps : forall (m : M unit),
             preserves
               (keeps (fun s => (s.[protocol_version], s.[remote_protocol],
                                 sent s, pending s))) m ->
             preserves R m).
  { intros m Hm s0 _. apply Hm. }
  assert (Hprefix : preserves R
                      (allocate_extras ;; exchange_versions f_out f_in ;;
                       check_versions ;; validate_features ;;
                       register_partial_dir)).
  { apply preserves_bind; [exact Rtrans | apply Rkeeps; frame_blocks |].
    intros _. apply preserves_bind; [exact Rtrans | |].
    - unfold exchange_versions. apply preserves_when; [exact Rrefl |].
      intros s0 Hzero Hnz. apply Z.eqb_eq in Hzero. contradiction.
    - intros _. apply Rkeeps. frame_blocks. }
  rewrite setup_protocol_split_seed, final_bind.
  specialize (Hprefix s Hset).
  destruct ((allocate_extras ;; exchange_versions f_out f_in ;;
             check_versions ;; validate_features ;; register_partial_dir) s)
    as [[] s5 | c s5]; simpl in Hprefix;
    injection Hprefix as Hpv Hrem Hsent Hpend.
  - destruct (exchange_seed_pending f_out f_in s5) as [Hv Hp].
    injection Hv as -> ->. rewrite <- Hsent, <- Hpend.
    repeat split; auto. apply exchange_seed_sent.
  - auto.
Qed.

(** Lines 227-233 when they return. *)
Lemma exchange_seed_returned (f_out f_in : Z) (s s' : state) :
  exchange_seed f_out f_in s = Ret tt s' ->
  (s'.[protocol_version], s'.[remote_protocol])
  = (s.[protocol_version], s.[remote_protocol])
  /\ (truthy s.[am_server] = true ->
      s'.[checksum_seed]
      = (if truthy s.[checksum_seed] then s.[checksum_seed]
         else wrap_int (clock s))
      /\ sent s' = sent s ++ [(f_out, s'.[checksum_seed])]
      /\ pending s' = pending s)
  /\ (truthy s.[am_server] = false ->
      pending s = s'.[checksum_seed] :: pending s'
      /\ sent s' = sent s).
Proof.
  unfold exchange_seed, cond, bind, when, cond, assign, write_int, read_int,
    ret.
  destruct (truthy s.[am_server]).
  - destruct (truthy s.[checksum_seed]) eqn:Hseed; cbn;
      (destruct (writable s); [| discriminate]); intros H;
      injection H as <-; cbn; rewrite ?Hseed;
      repeat split; intros; try reflexivity; discriminate.
  - destruct (pending s) as [| v rest] eqn:E; [discriminate |].
    intros H. injection H as <-. cbn.
    repeat split; intros; try reflexivity; discriminate.
Qed.

(** What the three blocks between the two exchanges leave alone. *)
Lemma channel_kept_between_exchanges :
  preserves
    (keeps (fun s => (s.[protocol_version], s.[remote_protocol],
                      s.[am_server], s.[checksum_seed], clock s,
                      sent s, pending s)))
    (check_versions ;; validate_features ;; register_partial_dir).
Proof. frame_blocks. Qed.

(** What the slot allocation leaves alone of the channel and the seed. *)
Lemma channel_kept_by_allocation :
  preserves
    (keeps (fun s => (s.[remote_protocol], s.[read_batch], s.[am_server],
                      s.[checksum_seed], clock s, sent s, pending s)))
    allocate_extras.
Proof. frame_blocks. Qed.

Lemma seed_kept_by_exchange (f_out f_in : Z) :
  preserves
    (keeps (fun s => (s.[am_server], s.[checksum_seed], clock s)))
    (exchange_versions f_out f_in).
Proof. frame_blocks. Qed.

(** A live run that returns: what it read, what it wrote and what it
    settled on.  [w] is the version that lines 109-110 left. *)
Lemma returned_live_run (f_out f_in : Z) (s : state) :
  returned (setup_protocol f_out f_in s) = true ->
  s.[remote_protocol] = 0 ->
  truthy s.[read_batch] = false ->
  let s' := final (setup_protocol f_out f_in s) in
  exists w r rest,
    pending s = r :: rest
    /\ s'.[protocol_version] = Z.min w r
    /\ s'.[remote_protocol] = r
    /\ (truthy s.[am_server] = true ->
        sent s' = sent s ++ [(f_out, w); (f_out, s'.[checksum_seed])]
        /\ pending s' = rest)
    /\ (truthy s.[am_server] = false ->
        sent s' = sent s ++ [(f_out, w)]
        /\ rest = s'.[checksum_seed] :: pending s').
Proof.
  intros Hret Hremote Hlive s'. subst s'.
  destruct (setup_protocol_returned _ _ _ Hret)
    as [s1 [s2 [s3 [s4 [s5 [s6 [E1 [E2 [E3 [E4 [E5 [E6 E]]]]]]]]]]]].
  rewrite E. cbn.
  pose proof (preserves_Ret _ _ _ _ _ channel_kept_by_allocation E1) as K1.
  unfold keeps in K1. injection K1 as Hrem1 Hrb1 Hsrv1 _ _ Hsent1 Hpend1.
  destruct (exchange_versions_returned _ _ _ _ E2 ltac:(congruence))
    as [w [r [rest [Hp [Hp2 [Hr [Hmin Hsent2]]]]]]].
  rewrite Hrb1, Hlive, Hsent1 in Hsent2. rewrite Hpend1 in Hp.
  pose proof (preserves_Ret _ _ _ _ _ (seed_kept_by_exchange f_out f_in) E2)
    as K2.
  unfold keeps in K2. injection K2 as Hsrv2 _ _.
  assert (Hmid : (check_versions ;; validate_features ;;
                  register_partial_dir) s2 = Ret tt s5).
  { rewrite (bind_Ret _ _ _ _ _ E3), (bind_Ret _ _ _ _ _ E4). exact E5. }
  pose proof (preserves_Ret _ _ _ _ _ channel_kept_between_exchanges Hmid)
    as K5.
  unfold keeps in K5. injection K5 as Hpv5 Hrem5 Hsrv5 _ _ Hsent5 Hpend5.
  destruct (exchange_seed_returned _ _ _ _ E6) as [Hv [Hserver Hclient]].
  injection Hv as Hpv6 Hrem6.
  exists w, r, rest. repeat split; try congruence.
  - destruct Hserver as [_ [Hs _]]; [congruence |].
    rewrite Hs, Hsent5, Hsent2, <- app_assoc. reflexivity.
  - destruct Hserver as [_ [_ Hp6]]; congruence.
  - destruct Hclient as [_ Hs]; congruence.
  - destruct Hclient as [Hp6 _]; congruence.
Qed.

(** X9. A server and a client whose channel delivers to each what the other
    wrote, both live and both starting the exchange with nothing sent yet:
    when both runs of [setup_protocol] return, the two sides hold the same
    [protocol_version] and the same [checksum_seed], and each side's
    [remote_protocol] is the version that the other wrote. *)
Theorem both_sides_agree (f_out f_in g_out g_in : Z) (srv cli : state) :
  truthy srv.[am_server] = true ->
  truthy cli.[am_server] = false ->
  srv.[remote_protocol] = 0 -> cli.[remote_protocol] = 0 ->
  truthy srv.[read_batch] = false -> truthy cli.[read_batch] = false ->
  sent srv = [] -> sent cli = [] ->
  let srv' := final (setup_protocol f_out f_in srv) in
  let cli' := final (setup_protocol g_out g_in cli) in
  pending srv = map snd (sent cli') ->
  pending cli = map snd (sent srv') ->
  returned (setup_protocol f_out f_in srv) = true ->
  returned (setup_protocol g_out g_in cli) = true ->
  srv'.[protocol_version] = cli'.[protocol_version]
  /\ srv'.[checksum_seed] = cli'.[checksum_seed]
  /\ sent srv' = [(f_out, cli'.[remote_protocol]);
                  (f_out, srv'.[checksum_seed])]
  /\ sent cli' = [(g_out, srv'.[remote_protocol])].
Proof.
  intros Hsrv Hcli Hrs Hrc Hls Hlc Hss Hsc srv' cli' Hps Hpc Hrets Hretc.
  destruct (returned_live_run _ _ _ Hrets Hrs Hls)
    as [ws [rs [rests [Hpends [Hpvs [Hrems [Hservers _]]]]]]].
  destruct (returned_live_run _ _ _ Hretc Hrc Hlc)
    as [wc [rc [restc [Hpendc [Hpvc [Hremc [_ Hclientc]]]]]]].
  destruct (Hservers Hsrv) as [Hsents _].
  destruct (Hclientc Hcli) as [Hsentc Hseedc].
  fold srv' in Hpvs, Hrems, Hsents. fold cli' in Hpvc, Hremc, Hsentc, Hseedc.
  rewrite Hss in Hsents. rewrite Hsc in Hsentc. cbn in Hsents, Hsentc.
  rewrite Hsentc in Hps. rewrite Hsents in Hpc. cbn in Hps, Hpc.
  rewrite Hps in Hpends. rewrite Hpc in Hpendc.
  injection Hpends as <- <-. injection Hpendc as <- <-.
  injection Hseedc as Hseed _.
  rewrite Hpvs, Hpvc, Hrems, Hremc, Hsents, Hsentc.
  repeat split; try congruence. lia.
Qed.

(* ------------------------------------------------------------------ *)
(** *** The log and the verdict of the version checks *)

Lemma check_versions_returned_log (s s' : state) :
  check_versions s = Ret tt s' ->
  log s' = log s ++ versions_report s
  /\ (s'.[verbose], s'.[am_server], s'.[remote_protocol],
      s'.[protocol_version])
     = (s.[verbose], s.[am_server], s.[remote_protocol],
        s.[protocol_version]).
Proof.
  intros Hrun. unfold versions_report.
  unfold check_versions, fatal, bind, when, cond, rprintf, exit_cleanup, ret
    in Hrun.
  follow_run Hrun; injection Hrun as <-; cbn;
    rewrite <- ?app_assoc, ?app_nil_r; split; reflexivity.
Qed.

Lemma validate_features_returned_log (s s' : state) :
  validate_features s = Ret tt s' -> log s' = log s.
Proof.
  intros Hrun.
  unfold validate_features, fatal, bind, when, cond, rprintf, exit_cleanup,
    assign, ret in Hrun.
  follow_run Hrun; injection Hrun as <-; reflexivity.
Qed.

Lemma report_inputs_kept_before_checks (f_out f_in : Z) :
  preserves (keeps (fun s => (s.[verbose], s.[am_server], log s)))
    (allocate_extras ;; exchange_versions f_out f_in).
Proof. frame_blocks. Qed.

Lemma log_kept_after_validation (f_out f_in : Z) :
  preserves (keeps (fun s => (log s, s.[verbose], s.[am_server],
                              s.[remote_protocol], s.[protocol_version])))
    (register_partial_dir ;; exchange_seed f_out f_in).
Proof. frame_blocks. Qed.

(** X10. A run of [setup_protocol] that returns has logged no error: what
    it added to the log is the report of the two versions when [verbose] is
    above 3, followed by the advice to upgrade when the peer's version is
    below [OLD_PROTOCOL_VERSION], both of class [FINFO], and nothing else.
    The advice does not stop the run. *)
Theorem returned_log (f_out f_in : Z) (s : state) :
  returned (setup_protocol f_out f_in s) = true ->
  let s' := final (setup_protocol f_out f_in s) in
  log s' = log s ++ versions_report s'
  /\ s'.[verbose] = s.[verbose] /\ s'.[am_server] = s.[am_server]
  /\ Forall (fun m => msg_code m = FINFO) (versions_report s').
Proof.
  intros Hret s'. subst s'.
  destruct (setup_protocol_returned _ _ _ Hret)
    as [s1 [s2 [s3 [s4 [s5 [s6 [E1 [E2 [E3 [E4 [E5 [E6 E]]]]]]]]]]]].
  rewrite E. cbn.
  assert (Hpre : (allocate_extras ;; exchange_versions f_out f_in) s
                 = Ret tt s2).
  { rewrite (bind_Ret _ _ _ _ _ E1). exact E2. }
  pose proof (preserves_Ret _ _ _ _ _
                (report_inputs_kept_before_checks f_out f_in) Hpre) as K2.
  unfold keeps in K2. injection K2 as Hv2 Hs2 Hl2.
  destruct (check_versions_returned_log _ _ E3) as [Hl3 K3].
  injection K3 as Hv3 Hs3 Hr3 Hp3.
  pose proof (validate_features_returned_log _ _ E4) as Hl4.
  assert (K4 : (s4.[verbose], s4.[am_server], s4.[remote_protocol],
                s4.[protocol_version])
               = (s3.[verbose], s3.[am_server], s3.[remote_protocol],
                  s3.[protocol_version])).
  { apply (preserves_Ret
             (keeps (fun s => (s.[verbose], s.[am_server],
                               s.[remote_protocol], s.[protocol_version])))
             validate_features s3 s4 tt); [frame_blocks | exact E4]. }
  injection K4 as Hv4 Hs4 Hr4 Hp4.
  assert (Hpost : (register_partial_dir ;; exchange_seed f_out f_in) s4
                  = Ret tt s6).
  { rewrite (bind_Ret _ _ _ _ _ E5). exact E6. }
  pose proof (preserves_Ret _ _ _ _ _
                (log_kept_after_validation f_out f_in) Hpost) as K6.
  unfold keeps in K6. injection K6 as Hl6 Hv6 Hs6 Hr6 Hp6.
  assert (Hrep : versions_report s6 = versions_report s2).
  { unfold versions_report, role_name.
    rewrite Hv6, Hs6, Hr6, Hp6, Hv4, Hs4, Hr4, Hp4, Hv3, Hs3, Hr3, Hp3.
    reflexivity. }
  rewrite Hrep. repeat split; try congruence.
  unfold versions_report.
  destruct (_ >? _); destruct (_ <? _); cbn; repeat constructor.
Qed.

(** X11. The version checks of lines 117-146 return exactly when the
    recorded version of a batch is not newer than [protocol_version], the
    peer's version lies between [MIN_PROTOCOL_VERSION] and
    [MAX_PROTOCOL_VERSION], and [protocol_version] lies between
    [MIN_PROTOCOL_VERSION] and [PROTOCOL_VERSION].  Otherwise they leave
    with [RERR_PROTOCOL], the last message logged being of class [FERROR].
    No global is changed either way. *)
Theorem check_versions_verdict (s : state) :
  let o := check_versions s in
  (returned o = true
   <-> (truthy s.[read_batch] = true ->
        s.[remote_protocol] <= s.[protocol_version])
       /\ MIN_PROTOCOL_VERSION <= s.[remote_protocol] <= MAX_PROTOCOL_VERSION
       /\ MIN_PROTOCOL_VERSION <= s.[protocol_version] <= PROTOCOL_VERSION)
  /\ (returned o = false ->
      exit_code o = Some RERR_PROTOCOL
      /\ exists pre m,
           log (final o) = log s ++ pre ++ [m] /\ msg_code m = FERROR)
  /\ (forall x, (final o).[x] = s.[x]).
Proof.
  cbv zeta. split; [split |].
  - intros Hret. apply returned_Ret in Hret.
    exact (check_versions_returned _ _ Hret).
  - intros [Hbatch [Hremote Hlocal]].
    unfold check_versions, fatal, bind, when, cond, rprintf, exit_cleanup,
      ret.
    destruct (truthy s.[read_batch]); cbn;
      repeat case_cond; try reflexivity; try lia;
      specialize (Hbatch eq_refl); lia.
  - unfold check_versions, fatal, bind, when, cond, rprintf, exit_cleanup,
      ret.
    destruct (truthy s.[read_batch]); cbn;
      repeat case_cond;
      (split; [intros Hf;
               first [ discriminate Hf
                     | split; [reflexivity |];
                       cbn; eexists; eexists;
                       (split;
                        [ rewrite app_assoc; f_equal;
                          first [ reflexivity
                                | symmetry; apply app_nil_r
                                | rewrite <- app_assoc; reflexivity ]
                        | reflexivity ]) ]
              | intros x; reflexivity]).
Qed.

(* ------------------------------------------------------------------ *)
(** *** The checksum seed *)

Lemma exchange_versions_skipped (f_out f_in : Z) (s : state) :
  s.[remote_protocol] <> 0 -> exchange_versions f_out f_in s = Ret tt s.
Proof.
  intros H. unfold exchange_versions, when, cond.
  apply Z.eqb_neq in H. rewrite H. reflexivity.
Qed.

(** X12. When [setup_protocol] returns on a server, [checksum_seed] is the
    seed that was configured, or, when none was (the global is 0), the time
    truncated to an [int]; it is the last value written.  On a client,
    [checksum_seed] is the value read after the peer's version (or the
    first value read, when the exchange of versions is skipped), and
    nothing is read after it. *)
Theorem returned_seed (f_out f_in : Z) (s : state) :
  returned (setup_protocol f_out f_in s) = true ->
  let s' := final (setup_protocol f_out f_in s) in
  (truthy s.[am_server] = true ->
   s'.[checksum_seed]
   = (if truthy s.[checksum_seed] then s.[checksum_seed]
      else wrap_int (clock s))
   /\ exists pre, sent s' = pre ++ [(f_out, s'.[checksum_seed])])
  /\ (truthy s.[am_server] = false ->
      (s.[remote_protocol] = 0 ->
       pending s
       = s'.[remote_protocol] :: s'.[checksum_seed] :: pending s')
      /\ (s.[remote_protocol] <> 0 ->
          pending s = s'.[checksum_seed] :: pending s')).
Proof.
  intros Hret s'. subst s'.
  destruct (setup_protocol_returned _ _ _ Hret)
    as [s1 [s2 [s3 [s4 [s5 [s6 [E1 [E2 [E3 [E4 [E5 [E6 E]]]]]]]]]]]].
  rewrite E. cbn.
  pose proof (preserves_Ret _ _ _ _ _ channel_kept_by_allocation E1) as K1.
  unfold keeps in K1. injection K1 as Hrem1 _ Hsrv1 Hseed1 Hclk1 _ Hpend1.
  pose proof (preserves_Ret _ _ _ _ _ (seed_kept_by_exchange f_out f_in) E2)
    as K2.
  unfold keeps in K2. injection K2 as Hsrv2 Hseed2 Hclk2.
  assert (Hmid : (check_versions ;; validate_features ;;
                  register_partial_dir) s2 = Ret tt s5).
  { rewrite (bind_Ret _ _ _ _ _ E3), (bind_Ret _ _ _ _ _ E4). exact E5. }
  pose proof (preserves_Ret _ _ _ _ _ channel_kept_between_exchanges Hmid)
    as K5.
  unfold keeps in K5.
  injection K5 as _ Hrem5 Hsrv5 Hseed5 Hclk5 _ Hpend5.
  destruct (exchange_seed_returned _ _ _ _ E6) as [Hv [Hserver Hclient]].
  injection Hv as _ Hrem6.
  split.
  - intros Hsrv.
    assert (Hsrv' : truthy s5.[am_server] = true)
      by (rewrite Hsrv5, Hsrv2, Hsrv1; exact Hsrv).
    destruct (Hserver Hsrv') as [Hs [Hsent _]].
    split; [| exists (sent s5); exact Hsent].
    rewrite Hs, Hseed5, Hseed2, Hseed1, Hclk5, Hclk2, Hclk1. reflexivity.
  - intros Hcli.
    assert (Hcli' : truthy s5.[am_server] = false)
      by (rewrite Hsrv5, Hsrv2, Hsrv1; exact Hcli).
    destruct (Hclient Hcli') as [Hp _]. split.
    + intros H0. rewrite <- Hrem1 in H0.
      destruct (exchange_versions_returned _ _ _ _ E2 H0)
        as [w [r [rest [Hp1 [Hp2 [Hr _]]]]]].
      congruence.
    + intros Hnz. rewrite <- Hrem1 in Hnz.
      rewrite (exchange_versions_skipped f_out f_in s1 Hnz) in E2.
      injection E2 as <-. congruence.
Qed.

(* ------------------------------------------------------------------ *)
(** *** Runs that succeed *)

(** Lines 109-110 look at four things only. *)
Lemma sub_check_version_congr (s1 s : state) :
  (s1.[protocol_version], s1.[am_server], s1.[local_server], shell_cmd s1)
  = (s.[protocol_version], s.[am_server], s.[local_server], shell_cmd s) ->
  (final (when (fun s => truthy s.[am_server]
                         && negb (truthy s.[local_server]))
            check_sub_protocol s1)).[protocol_version]
  = (final (when (fun s => truthy s.[am_server]
                           && negb (truthy s.[local_server]))
              check_sub_protocol s)).[protocol_version].
Proof.
  intros H. injection H as Hpv Hsrv Hloc Hcmd.
  unfold when, cond. rewrite Hsrv, Hloc.
  destruct (_ && _); cbn; [| exact Hpv].
  unfold check_sub_protocol, bind, read. rewrite Hcmd, Hpv.
  destruct (parse_sub_protocol (shell_cmd s)) as [[tp ts] |].
  - unfold compare_sub_protocol, bind, read, decr, assign, ret.
    rewrite ?Hpv.
    repeat match goal with
           | |- context [if ?c then _ else _] => destruct c
           end; cbn; rewrite ?Hpv; reflexivity.
  - unfold decr, assign, ret. destruct (truthy _); cbn; rewrite ?Hpv;
      reflexivity.
Qed.

(** Lines 108-116 on a live channel. *)
Lemma exchange_versions_live (f_out f_in : Z) (s : state) (r : Z)
    (rest : list Z) :
  s.[remote_protocol] = 0 ->
  truthy s.[read_batch] = false ->
  writable s = true ->
  pending s = r :: rest ->
  let w := (final (when (fun s => truthy s.[am_server]
                                  && negb (truthy s.[local_server]))
                     check_sub_protocol s)).[protocol_version] in
  exists s2,
    exchange_versions f_out f_in s = Ret tt s2
    /\ s2.[protocol_version] = Z.min w r
    /\ s2.[remote_protocol] = r
    /\ pending s2 = rest
    /\ writable s2 = true.
Proof.
  intros Hremote Hlive Hwr Hpend w. subst w.
  unfold exchange_versions, when at 1, cond. rewrite Hremote. cbn.
  destruct (sub_check_returns s) as [sa [Hsub Hkept]].
  injection Hkept as Hrb Hp Hsent Hw _.
  rewrite (bind_Ret _ _ _ _ _ Hsub). rewrite Hsub. cbn.
  unfold bind, when, cond, write_int, read_int, assign, ret.
  rewrite Hrb, Hlive. cbn. rewrite Hw, Hwr. cbn. rewrite Hp, Hpend. cbn.
  case_cond; eexists; (split; [reflexivity |]); cbn;
    repeat split; try lia; congruence.
Qed.

(** The other direction of [check_versions_returned]. *)
Lemma check_versions_accepts (s : state) :
  (truthy s.[read_batch] = true ->
   s.[remote_protocol] <= s.[protocol_version]) ->
  MIN_PROTOCOL_VERSION <= s.[remote_protocol] <= MAX_PROTOCOL_VERSION ->
  MIN_PROTOCOL_VERSION <= s.[protocol_version] <= PROTOCOL_VERSION ->
  returned (check_versions s) = true.
Proof.
  intros Hbatch Hremote Hlocal.
  unfold check_versions, fatal, bind, when, cond, rprintf, exit_cleanup, ret.
  destruct (truthy s.[read_batch]); cbn;
    repeat case_cond; try reflexivity; try lia;
    specialize (Hbatch eq_refl); lia.
Qed.

(** The other direction of [validate_features_gates]. *)
Lemma validate_features_accepts (s : state) :
  (s.[protocol_version] < 30 ->
   ~ (s.[max_delete] = 0 /\ s.[am_sender] <> 0)
   /\ (s.[preserve_acls] <> 0 -> s.[local_server] <> 0)
   /\ (s.[preserve_xattrs] <> 0 -> s.[local_server] <> 0)) ->
  (s.[protocol_version] < 29 ->
   s.[fuzzy_basis] = 0
   /\ (s.[basis_dir_cnt] = 0 \/ s.[inplace] = 0)
   /\ s.[basis_dir_cnt] <= 1
   /\ s.[prune_empty_dirs] = 0) ->
  returned (validate_features s) = true.
Proof.
  intros H30 H29.
  destruct (returned (validate_features s)) eqn:Hret; [reflexivity |].
  exfalso. revert Hret.
  unfold validate_features, fatal, bind, when, cond, rprintf, exit_cleanup,
    assign, ret.
  intros Hret. follow_run Hret; bool_to_prop;
    try (specialize (H30 ltac:(lia))); try (specialize (H29 ltac:(lia)));
    intuition (try lia; try congruence).
Qed.

Lemma register_partial_dir_returns (s : state) :
  returned (register_partial_dir s) = true.
Proof.
  unfold register_partial_dir. destruct (partial_dir s); [| reflexivity].
  destruct (_ && _); reflexivity.
Qed.

Lemma exchange_seed_runs (f_out f_in : Z) (s : state) :
  (truthy s.[am_server] = true -> writable s = true) ->
  (truthy s.[am_server] = false -> pending s <> []) ->
  returned (exchange_seed f_out f_in s) = true.
Proof.
  intros Hsrv Hcli.
  unfold exchange_seed, cond, bind, when, cond, assign, write_int, read_int,
    ret.
  destruct (truthy s.[am_server]).
  - destruct (negb _); cbn; rewrite (Hsrv eq_refl); reflexivity.
  - destruct (pending s); [elim (Hcli eq_refl); reflexivity | reflexivity].
Qed.

Lemma writable_kept_between_exchanges :
  preserves (keeps (fun s => writable s))
    (check_versions ;; validate_features ;; register_partial_dir).
Proof. frame_blocks. Qed.

(** X13. A live exchange succeeds whenever nothing stands against it: the
    write goes through, a version [r] arrives (followed, on a client, by a
    seed), [r] lies between [MIN_PROTOCOL_VERSION] and
    [MAX_PROTOCOL_VERSION], the minimum [v] of [r] and the version [w] left
    by lines 109-110 lies between [MIN_PROTOCOL_VERSION] and
    [PROTOCOL_VERSION], and no option is requested that [v] cannot serve.
    Then [setup_protocol] returns, with [protocol_version] at [v] and
    [remote_protocol] at [r]. *)
Theorem negotiation_succeeds (f_out f_in : Z) (s : state) (r : Z)
    (rest : list Z) :
  s.[remote_protocol] = 0 ->
  truthy s.[read_batch] = false ->
  writable s = true ->
  pending s = r :: rest ->
  (truthy s.[am_server] = false -> rest <> []) ->
  let w := (final (when (fun s => truthy s.[am_server]
                                  && negb (truthy s.[local_server]))
                     check_sub_protocol s)).[protocol_version] in
  let v := Z.min w r in
  MIN_PROTOCOL_VERSION <= r <= MAX_PROTOCOL_VERSION ->
  MIN_PROTOCOL_VERSION <= v <= PROTOCOL_VERSION ->
  (v < 30 ->
   ~ (s.[max_delete] = 0 /\ s.[am_sender] <> 0)
   /\ (s.[preserve_acls] <> 0 -> s.[local_server] <> 0)
   /\ (s.[preserve_xattrs] <> 0 -> s.[local_server] <> 0)) ->
  (v < 29 ->
   s.[fuzzy_basis] = 0
   /\ (s.[basis_dir_cnt] = 0 \/ s.[inplace] = 0)
   /\ s.[basis_dir_cnt] <= 1
   /\ s.[prune_empty_dirs] = 0) ->
  returned (setup_protocol f_out f_in s) = true
  /\ (final (setup_protocol f_out f_in s)).[protocol_version] = v
  /\ (final (setup_protocol f_out f_in s)).[remote_protocol] = r.
Proof.
  intros Hremote Hlive Hwr Hpend Hseed w v Hr Hv H30 H29.
  pose proof (allocate_extras_returns s) as E1.
  set (s1 := final (allocate_extras s)) in E1.
  pose proof (preserves_Ret _ _ _ _ _ exchange_inputs_kept_by_allocation E1)
    as K1.
  unfold keeps in K1.
  injection K1 as Hpv1 Hrem1 Hsrv1 Hloc1 Hrb1 Hcmd1 Hpend1 _ Hwr1 _.
  destruct (exchange_versions_live f_out f_in s1 r rest)
    as [s2 [E2 [Hpv2 [Hrem2 [Hpend2 Hwr2]]]]]; try congruence.
  rewrite (sub_check_version_congr s1 s) in Hpv2 by congruence.
  fold w in Hpv2. fold v in Hpv2.
  assert (E3 : check_versions s2 = Ret tt (final (check_versions s2))).
  { apply returned_Ret. apply check_versions_accepts.
    - intros Hb.
      assert (Hb2 : s2.[read_batch] = s1.[read_batch]).
      { apply (preserves_Ret (keeps (fun s => s.[read_batch]))
                 (exchange_versions f_out f_in) s1 s2 tt);
          [frame_blocks | exact E2]. }
      rewrite Hb2, Hrb1, Hlive in Hb. discriminate.
    - rewrite Hrem2. exact Hr.
    - rewrite Hpv2. exact Hv. }
  set (s3 := final (check_versions s2)) in E3.
  assert (Ebefore : (allocate_extras ;; exchange_versions f_out f_in ;;
                     check_versions) s = Ret tt s3).
  { rewrite (bind_Ret _ _ _ _ _ E1), (bind_Ret _ _ _ _ _ E2). exact E3. }
  pose proof (preserves_Ret _ _ _ _ _
                (options_kept_before_validation f_out f_in) Ebefore) as Kb.
  unfold keeps in Kb.
  injection Kb as G1 G2 G3 G4 G5 G6 G7 G8 G9 _ _ _ _ _ _ _ _ _ _ _ _ _.
  destruct (check_versions_returned_log _ _ E3) as [_ K3].
  injection K3 as _ _ Hrem3 Hpv3.
  assert (E4 : validate_features s3
               = Ret tt (final (validate_features s3))).
  { apply returned_Ret. apply validate_features_accepts;
      rewrite Hpv3, Hpv2, ?G1, ?G2, ?G3, ?G4, ?G5, ?G6, ?G7, ?G8, ?G9;
      assumption. }
  set (s4 := final (validate_features s3)) in E4.
  pose proof (returned_Ret _ _ (register_partial_dir_returns s4)) as E5.
  set (s5 := final (register_partial_dir s4)) in E5.
  assert (Hmid : (check_versions ;; validate_features ;;
                  register_partial_dir) s2 = Ret tt s5).
  { rewrite (bind_Ret _ _ _ _ _ E3), (bind_Ret _ _ _ _ _ E4). exact E5. }
  pose proof (preserves_Ret _ _ _ _ _ channel_kept_between_exchanges Hmid)
    as K5.
  unfold keeps in K5. injection K5 as Hpv5 Hrem5 Hsrv5 _ _ _ Hpend5.
  pose proof (preserves_Ret _ _ _ _ _ writable_kept_between_exchanges Hmid)
    as Hwr5.
  unfold keeps in Hwr5.
  pose proof (preserves_Ret _ _ _ _ _ (seed_kept_by_exchange f_out f_in) E2)
    as K2.
  unfold keeps in K2. injection K2 as Hsrv2 _ _.
  assert (E6 : exchange_seed f_out f_in s5
               = Ret tt (final (exchange_seed f_out f_in s5))).
  { apply returned_Ret. apply exchange_seed_runs.
    - intros _. congruence.
    - intros Hc. rewrite Hpend5, Hpend2. apply Hseed.
      rewrite <- Hsrv1, <- Hsrv2, <- Hsrv5. exact Hc. }
  set (s6 := final (exchange_seed f_out f_in s5)) in E6.
  assert (E : setup_protocol f_out f_in s = Ret tt s6).
  { unfold setup_protocol.
    rewrite (bind_Ret _ _ _ _ _ E1), (bind_Ret _ _ _ _ _ E2),
      (bind_Ret _ _ _ _ _ E3), (bind_Ret _ _ _ _ _ E4),
      (bind_Ret _ _ _ _ _ E5). exact E6. }
  rewrite E. cbn.
  destruct (exchange_seed_returned _ _ _ _ E6) as [K6 _].
  injection K6 as Hpv6 Hrem6.
  repeat split; congruence.
Qed.

End Properties.

(* ================================================================== *)
(** ** The properties on concrete runs *)

(** C1 at a server of protocol 30, a final release, whose client sent no
    hint and answers 29. *)
Lemma final_releases_negotiate_min_witness :
  let s := server_meets_29 in
  (s.[remote_protocol] = 0
   /\ truthy s.[read_batch] = false
   /\ writable s = true
   /\ pending s = [29]
   /\ (truthy s.[am_server] && negb (truthy s.[local_server]) = true ->
       our_sub_protocol (hdr := rsync_h) s.[protocol_version] = 0
       /\ hint_unusable (shell_cmd s)))
  /\ (final (setup_protocol (hdr := rsync_h) 1 0 s)).[protocol_version]
     = Z.min s.[protocol_version] 29
  /\ (final (setup_protocol (hdr := rsync_h) 1 0 s)).[remote_protocol] = 29.
Proof.
  assert (H : truthy server_meets_29.[am_server]
              && negb (truthy server_meets_29.[local_server]) = true ->
              our_sub_protocol (hdr := rsync_h)
                server_meets_29.[protocol_version] = 0
              /\ hint_unusable (shell_cmd server_meets_29)).
  { intros _. split; [reflexivity | exact I]. }
  split; [repeat split; exact H |].
  apply (final_releases_negotiate_min (hdr := rsync_h) 1 0 server_meets_29
           29 [] eq_refl eq_refl eq_refl eq_refl H).
Defined.

(** What that run does: it ends at 29, having written 30 and then the
    seed. *)
Example server_meets_29_run :
  let o := setup_protocol (hdr := rsync_h) 1 0 server_meets_29 in
  returned o = true
  /\ (final o).[protocol_version] = 29
  /\ sent (final o) = [(1, 30); (1, 1194000000)].
Proof. vm_compute. repeat split. Qed.

(** C2 as stated fails: at a negotiated version of 29 a request for
    --prune-empty-dirs passes; the run returns and nothing is logged. *)
Lemma prune_empty_dirs_accepted_at_29 :
  let o := setup_protocol (hdr := rsync_h) 1 0 prune_client_meets_29 in
  truthy prune_client_meets_29.[prune_empty_dirs] = true
  /\ (final o).[remote_protocol] = 29
  /\ (final o).[protocol_version] = 29
  /\ returned o = true
  /\ exit_code o = None
  /\ log (final o) = [].
Proof. vm_compute. repeat split. Qed.

(** C2 (amended) at protocol 28. *)
Lemma prune_empty_dirs_below_29_witness :
  let s := prune_at_28 in
  let o := validate_features (hdr := rsync_h) s in
  (s.[protocol_version] < 29 /\ truthy s.[prune_empty_dirs] = true)
  /\ exit_code o = Some 2
  /\ exists m,
       log (final o) = log s ++ [m]
       /\ msg_code m = FERROR
       /\ is_feature_format (msg_format m) = true
       /\ (earlier_gate s = false ->
           m = Message FERROR fmt_prune_empty_dirs [AInt 28]).
Proof.
  split; [split; reflexivity |].
  apply (prune_empty_dirs_below_29 (hdr := rsync_h) prune_at_28);
    reflexivity.
Defined.

(** C3 at a sender that preserves owners and extended attributes. *)
Lemma sender_uid_xattrs_slots_witness :
  let s := sender_uid_xattrs in
  let s' := final (setup_protocol (hdr := rsync_h) 1 0 s) in
  (PTR_EXTRA_LEN (Header := rsync_h) = 2
   /\ s.[file_extra_cnt] = 0
   /\ truthy s.[am_sender] = true
   /\ truthy s.[preserve_uid] = true
   /\ truthy s.[preserve_gid] = false
   /\ truthy s.[preserve_xattrs] = true)
  /\ s'.[uid_ndx] = 3 /\ s'.[xattrs_ndx] = 4 /\ s'.[file_extra_cnt] = 4
  /\ s'.[gid_ndx] = 0 /\ s'.[acls_ndx] = 0.
Proof.
  split; [repeat split |].
  apply (sender_uid_xattrs_slots (hdr := rsync_h) 1 0 sender_uid_xattrs);
    reflexivity.
Defined.

(** C4 at a pre-release server (sub-protocol 5) whose client sent 30.0. *)
Lemma unusable_hint_demotes_by_our_sub_witness :
  let s := server_with_hint "30.0" in
  (hint_unusable (shell_cmd s)
   /\ int_min < s.[protocol_version] <= int_max)
  /\ returned (check_sub_protocol (hdr := prerelease_h) s) = true
  /\ (our_sub_protocol (hdr := prerelease_h) s.[protocol_version] <> 0 ->
      (final (check_sub_protocol (hdr := prerelease_h) s)).[protocol_version]
      = s.[protocol_version] - 1)
  /\ (our_sub_protocol (hdr := prerelease_h) s.[protocol_version] = 0 ->
      (final (check_sub_protocol (hdr := prerelease_h) s)).[protocol_version]
      = s.[protocol_version]).
Proof.
  assert (Hhint : hint_unusable (shell_cmd (server_with_hint "30.0"))).
  { right. reflexivity. }
  assert (Hrange : int_min < (server_with_hint "30.0").[protocol_version]
                   <= int_max).
  { split; [reflexivity | discriminate]. }
  split; [split; assumption |].
  apply (unusable_hint_demotes_by_our_sub (hdr := prerelease_h)
           (server_with_hint "30.0") Hhint Hrange).
Defined.

(** C5 at protocol 30 with the hint 29.4. *)
Lemma peer_behind_sets_version_witness :
  let s := server_with_hint "29.4" in
  let o := compare_sub_protocol 5 29 4 s in
  (29 < s.[protocol_version] /\ int_min < 29
   /\ s.[protocol_version] <= int_max)
  /\ returned o = true
  /\ (4 <> 0 -> (final o).[protocol_version] = 29 - 1)
  /\ (4 = 0 -> (final o).[protocol_version] = s.[protocol_version]).
Proof.
  assert (H1 : 29 < (server_with_hint "29.4").[protocol_version])
    by reflexivity.
  assert (H2 : int_min < 29) by reflexivity.
  assert (H3 : (server_with_hint "29.4").[protocol_version] <= int_max)
    by discriminate.
  split; [repeat split; assumption |].
  apply (peer_behind_sets_version 5 29 4 (server_with_hint "29.4") H1 H2 H3).
Defined.

(** C6 at a recursive transfer that preserves hard links. *)
Lemma hard_links_disable_inc_recurse_witness :
  (recursive_hard_links.[inc_recurse] = 0
   /\ truthy recursive_hard_links.[preserve_hard_links] = true)
  /\ (final (setup_protocol (hdr := rsync_h) 1 0
               recursive_hard_links)).[inc_recurse] = 0.
Proof.
  split; [split; reflexivity |].
  apply (hard_links_disable_inc_recurse (hdr := rsync_h) 1 0
           recursive_hard_links); reflexivity.
Defined.

(** The same transfer without hard links does switch [inc_recurse] on. *)
Example inc_recurse_without_hard_links :
  (final (setup_protocol (hdr := rsync_h) 1 0 recursive_plain)).[inc_recurse]
  = 1.
Proof. reflexivity. Qed.

(** C7 at a client that reads a batch recorded at protocol 31. *)
Lemma replay_rejects_newer_version_witness :
  let s := replay_of_31 in
  let o := setup_protocol (hdr := rsync_h) 1 0 s in
  (truthy s.[read_batch] = true
   /\ (s.[remote_protocol] = 0 -> pending s <> [])
   /\ (final o).[remote_protocol] > (final o).[protocol_version])
  /\ (sent (final o) = sent s
      \/ sent (final o) = sent s ++ [(1, (final o).[checksum_seed])])
  /\ exit_code o = Some 2
  /\ log (final o)
     = log s ++ [Message FERROR fmt_batch_too_new
                   [AInt (final o).[remote_protocol];
                    AInt (final o).[protocol_version]]]
  /\ sent (final o) = sent s.
Proof.
  assert (H1 : truthy replay_of_31.[read_batch] = true) by reflexivity.
  assert (H2 : replay_of_31.[remote_protocol] = 0 ->
               pending replay_of_31 <> []) by (intros _; discriminate).
  assert (H3 : (final (setup_protocol (hdr := rsync_h) 1 0
                         replay_of_31)).[remote_protocol]
               > (final (setup_protocol (hdr := rsync_h) 1 0
                           replay_of_31)).[protocol_version])
    by reflexivity.
  split; [repeat split; assumption |].
  destruct (replay_rejects_newer_version (hdr := rsync_h) 1 0 replay_of_31 H1)
    as [Hsent Hfail].
  split; [exact Hsent | exact (Hfail H2 H3)].
Defined.

(** What that run does: it exits with [RERR_PROTOCOL], 31 against 30, and
    has written nothing. *)
Example replay_of_31_run :
  let o := setup_protocol (hdr := rsync_h) 1 0 replay_of_31 in
  exit_code o = Some 2
  /\ log (final o) = [Message FERROR fmt_batch_too_new [AInt 31; AInt 30]]
  /\ sent (final o) = [].
Proof. vm_compute. repeat split. Qed.

(** C8 as stated fails: an empty partial-dir on a client is not rejected by
    line 220, and [parse_rule] is called with the empty pattern. *)
Lemma empty_partial_dir_is_registered :
  partial_dir (client_with_partial_dir "") = Some ""
  /\ returned (setup_protocol (hdr := rsync_h) 1 0
                 (client_with_partial_dir "")) = true
  /\ filter_list (final (setup_protocol (hdr := rsync_h) 1 0
                           (client_with_partial_dir "")))
     = [Rule "" (Z.lor (Z.lor (2 ^ 9) (2 ^ 6)) (2 ^ 19)) 0].
Proof. vm_compute. repeat split. Qed.

(** C8 (amended) at a sending client with a relative partial-dir. *)
Lemma partial_dir_rule_registration_witness :
  let s := client_with_partial_dir ".rsync-partial" in
  let o := register_partial_dir (hdr := rsync_h) s in
  (MATCHFLG_PERISHABLE (Header := rsync_h) <> 0
   /\ Z.land (Z.lor (MATCHFLG_NO_PREFIXES (Header := rsync_h))
                    (MATCHFLG_DIRECTORY (Header := rsync_h)))
             (MATCHFLG_PERISHABLE (Header := rsync_h)) = 0)
  /\ returned o = true
  /\ log (final o) = log s
  /\ (forall p, partial_dir_rule_due s p ->
        exists flags,
          filter_list (final o) = filter_list s ++ [Rule p flags 0]
          /\ Z.land flags (Z.lor (MATCHFLG_NO_PREFIXES (Header := rsync_h))
                                 (MATCHFLG_DIRECTORY (Header := rsync_h)))
             = Z.lor (MATCHFLG_NO_PREFIXES (Header := rsync_h))
                     (MATCHFLG_DIRECTORY (Header := rsync_h))
          /\ (Z.land flags (MATCHFLG_PERISHABLE (Header := rsync_h)) <> 0
              <-> s.[am_sender] = 0 \/ 30 <= s.[protocol_version]))
  /\ ((forall p, ~ partial_dir_rule_due s p) ->
        filter_list (final o) = filter_list s).
Proof.
  assert (H1 : MATCHFLG_PERISHABLE (Header := rsync_h) <> 0) by discriminate.
  assert (H2 : Z.land (Z.lor (MATCHFLG_NO_PREFIXES (Header := rsync_h))
                             (MATCHFLG_DIRECTORY (Header := rsync_h)))
                      (MATCHFLG_PERISHABLE (Header := rsync_h)) = 0)
    by reflexivity.
  split; [split; assumption |].
  apply (partial_dir_rule_registration (hdr := rsync_h)
           (client_with_partial_dir ".rsync-partial") H1 H2).
Defined.

(** C9 at a pre-release server (sub-protocol 5) whose client sent 30.4. *)
Lemma protocol_version_never_raised_witness :
  let s := server_with_hint "30.4" in
  (int_min < s.[protocol_version] <= int_max
   /\ (forall tp ts,
         parse_sub_protocol (shell_cmd s) = Some (tp, ts) -> int_min < tp))
  /\ version_not_raised s (final (check_sub_protocol (hdr := prerelease_h) s))
  /\ version_not_raised s
       (final (exchange_versions (hdr := prerelease_h) 1 0 s))
  /\ version_not_raised s
       (final (setup_protocol (hdr := prerelease_h) 1 0 s)).
Proof.
  assert (H1 : int_min < (server_with_hint "30.4").[protocol_version]
               <= int_max).
  { split; [reflexivity | discriminate]. }
  assert (H2 : forall tp ts,
             parse_sub_protocol (shell_cmd (server_with_hint "30.4"))
             = Some (tp, ts) -> int_min < tp).
  { intros tp ts H. vm_compute in H. injection H as <- _. reflexivity. }
  split; [split; assumption |].
  apply (protocol_version_never_raised (hdr := prerelease_h) 1 0
           (server_with_hint "30.4") H1 H2).
Defined.

(** The hypothesis on the hint cannot be dropped in this model: with
    [INT_MIN] as the first number, line 83 is a signed overflow, undefined
    in C and two's complement here. *)
Example hint_at_int_min_wraps :
  (final (check_sub_protocol (hdr := rsync_h)
            (server_with_hint "-2147483648.1"))).[protocol_version]
  = int_max.
Proof. reflexivity. Qed.

(** That server does go down, from 30 to 29. *)
Example prerelease_skew_demotes :
  (final (check_sub_protocol (hdr := prerelease_h)
            (server_with_hint "30.4"))).[protocol_version] = 29.
Proof. reflexivity. Qed.

(** C10 at a client that asks for --fuzzy and --prune-empty-dirs and
    negotiates protocol 30. *)
Lemma no_feature_error_from_30_witness :
  let o := setup_protocol (hdr := rsync_h) 1 0 fuzzy_prune_at_30 in
  30 <= (final o).[protocol_version]
  /\ exists l,
       log (final o) = log fuzzy_prune_at_30 ++ l
       /\ forall m, In m l -> ~ In (msg_format m) feature_formats.
Proof.
  assert (H : 30 <= (final (setup_protocol (hdr := rsync_h) 1 0
                              fuzzy_prune_at_30)).[protocol_version]).
  { vm_compute. discriminate. }
  split; [exact H |].
  apply (no_feature_error_from_30 (hdr := rsync_h) 1 0 fuzzy_prune_at_30 H).
Defined.

(** X1 at a client of protocol 30 whose server answers 29. *)
Lemma returned_versions_in_range_witness :
  let o := setup_protocol (hdr := rsync_h) 1 0 client_meets_29 in
  returned o = true
  /\ 20 <= (final o).[protocol_version] <= 30
  /\ 20 <= (final o).[remote_protocol] <= 40
  /\ (client_meets_29.[remote_protocol] = 0 ->
      (final o).[protocol_version] <= (final o).[remote_protocol])
  /\ (truthy client_meets_29.[read_batch] = true ->
      (final o).[remote_protocol] <= (final o).[protocol_version]).
Proof.
  split; [reflexivity |].
  apply (returned_versions_in_range (hdr := rsync_h) 1 0 client_meets_29).
  reflexivity.
Defined.

(** X2 at the same client, which ends at protocol 29. *)
Lemma returned_options_supported_witness :
  let s := client_meets_29 in
  let o := setup_protocol (hdr := rsync_h) 1 0 s in
  returned o = true
  /\ ((final o).[protocol_version] < 30 ->
      ~ (s.[max_delete] = 0 /\ s.[am_sender] <> 0)
      /\ (s.[preserve_acls] <> 0 -> s.[local_server] <> 0)
      /\ (s.[preserve_xattrs] <> 0 -> s.[local_server] <> 0))
  /\ ((final o).[protocol_version] < 29 ->
      s.[fuzzy_basis] = 0
      /\ (s.[basis_dir_cnt] = 0 \/ s.[inplace] = 0)
      /\ s.[basis_dir_cnt] <= 1
      /\ s.[prune_empty_dirs] = 0).
Proof.
  split; [reflexivity |].
  apply (returned_options_supported (hdr := rsync_h) 1 0 client_meets_29).
  reflexivity.
Defined.

(** X3 at a client that asks for a deletion and ends at protocol 29. *)
Lemma returned_delete_timing_witness :
  let s := delete_client_meets_29 in
  let s' := final (setup_protocol (hdr := rsync_h) 1 0 s) in
  returned (setup_protocol (hdr := rsync_h) 1 0 s) = true
  /\ s'.[delete_after] = s.[delete_after]
  /\ (s.[delete_mode] <> 0 ->
      s.[delete_before] = 0 -> s.[delete_during] = 0 ->
      s.[delete_after] = 0 ->
      (s'.[protocol_version] < 30 ->
       s'.[delete_before] = 1 /\ s'.[delete_during] = 0)
      /\ (30 <= s'.[protocol_version] ->
          s'.[delete_before] = 0 /\ s'.[delete_during] = 1))
  /\ (s.[delete_mode] = 0 ->
      s'.[delete_before] = s.[delete_before]
      /\ s'.[delete_during] = s.[delete_during])
  /\ (0 <= s.[delete_before] <= 1 -> 0 <= s.[delete_during] <= 1 ->
      0 <= s.[delete_after] <= 1 ->
      0 < s.[delete_before] + s.[delete_during] + s.[delete_after] ->
      s'.[delete_before] = s.[delete_before]
      /\ s'.[delete_during] = s.[delete_during]).
Proof.
  split; [reflexivity |].
  apply (returned_delete_timing (hdr := rsync_h) 1 0 delete_client_meets_29).
  reflexivity.
Defined.

(** What that run does: deletion before the transfer, at protocol 29. *)
Example delete_client_meets_29_run :
  values_of [protocol_version; delete_before; delete_during; delete_after]
    (final (setup_protocol (hdr := rsync_h) 1 0 delete_client_meets_29))
  = [29; 1; 0; 0].
Proof. reflexivity. Qed.

(** X4 at a recursive transfer without hard links, at protocol 30. *)
Lemma returned_inc_recurse_witness :
  let s := recursive_plain in
  let s' := final (setup_protocol (hdr := rsync_h) 1 0 s) in
  (returned (setup_protocol (hdr := rsync_h) 1 0 s) = true
   /\ s.[inc_recurse] = 0)
  /\ (s'.[inc_recurse] = 1
      <-> 30 <= s'.[protocol_version] /\ inc_recurse_conditions s)
  /\ (s'.[inc_recurse] = 1 \/ s'.[inc_recurse] = 0)
  /\ (30 <= s'.[protocol_version] -> s'.[need_messages_from_generator] = 1)
  /\ (s'.[protocol_version] < 30 ->
      s'.[need_messages_from_generator] = s.[need_messages_from_generator])
  /\ (s'.[inc_recurse] = 1 -> s'.[need_messages_from_generator] = 1).
Proof.
  split; [split; reflexivity |].
  apply (returned_inc_recurse (hdr := rsync_h) 1 0 recursive_plain);
    reflexivity.
Defined.

(** X5 at a receiver that preserves all four attributes: the indexes are
    2, 3, 4 and 5, after a baseline of 1. *)
Lemma extras_layout_witness :
  let s := receiver_all_attrs in
  let s' := final (setup_protocol (hdr := rsync_h) 1 0 s) in
  (0 <= s.[file_extra_cnt]
   /\ 0 <= PTR_EXTRA_LEN (Header := rsync_h)
   /\ s.[file_extra_cnt] + PTR_EXTRA_LEN (Header := rsync_h) + 5 <= int_max)
  /\ values_of [uid_ndx; gid_ndx; acls_ndx; xattrs_ndx; file_extra_cnt] s'
     = [2; 3; 4; 5; 5].
Proof.
  assert (H1 : 0 <= receiver_all_attrs.[file_extra_cnt]) by discriminate.
  assert (H2 : 0 <= PTR_EXTRA_LEN (Header := rsync_h)) by discriminate.
  assert (H3 : receiver_all_attrs.[file_extra_cnt]
               + PTR_EXTRA_LEN (Header := rsync_h) + 5 <= int_max)
    by discriminate.
  split; [repeat split; assumption |].
  destruct (extras_layout (hdr := rsync_h) 1 0 receiver_all_attrs H1 H2 H3)
    as [Hu [Hg [Ha [Hx Hc]]]].
  unfold values_of. cbn [map]. rewrite Hu, Hg, Ha, Hx, Hc. reflexivity.
Defined.

(** X6 at a pre-release server (sub-protocol 5) whose client sent 30.4. *)
Lemma hint_not_behind_witness :
  let s := server_with_hint "30.4" in
  let our_sub := our_sub_protocol (hdr := prerelease_h) s.[protocol_version] in
  let v' := (final (check_sub_protocol (hdr := prerelease_h) s)).[protocol_version] in
  (parse_sub_protocol (shell_cmd s) = Some (30, 4)
   /\ s.[protocol_version] <= 30
   /\ int_min < s.[protocol_version] <= int_max)
  /\ (s.[protocol_version] < 30 ->
      (our_sub = 0 -> v' = s.[protocol_version])
      /\ (our_sub <> 0 -> v' = s.[protocol_version] - 1))
  /\ (30 = s.[protocol_version] ->
      (4 = our_sub -> v' = s.[protocol_version])
      /\ (4 <> our_sub -> v' = s.[protocol_version] - 1)).
Proof.
  assert (H1 : parse_sub_protocol (shell_cmd (server_with_hint "30.4"))
               = Some (30, 4)) by reflexivity.
  assert (H2 : (server_with_hint "30.4").[protocol_version] <= 30)
    by discriminate.
  assert (H3 : int_min < (server_with_hint "30.4").[protocol_version]
               <= int_max) by (split; [reflexivity | discriminate]).
  split; [split; [exact H1 | split; [exact H2 | exact H3]] |].
  apply (hint_not_behind (hdr := prerelease_h) (server_with_hint "30.4")
           30 4 H1 H2 H3).
Defined.

(** X7 at a pre-release server whose client sent 29.4. *)
Lemma check_sub_protocol_effect_witness :
  let s := server_with_hint "29.4" in
  let o := check_sub_protocol (hdr := prerelease_h) s in
  (int_min < s.[protocol_version] <= int_max
   /\ (forall tp ts,
         parse_sub_protocol (shell_cmd s) = Some (tp, ts) -> int_min < tp))
  /\ returned o = true
  /\ (forall x, x <> protocol_version -> (final o).[x] = s.[x])
  /\ (sent (final o), pending (final o), log (final o),
      filter_list (final o), writable (final o))
     = (sent s, pending s, log s, filter_list s, writable s)
  /\ ((final o).[protocol_version] = s.[protocol_version]
      \/ (final o).[protocol_version] = s.[protocol_version] - 1
      \/ exists tp ts,
           parse_sub_protocol (shell_cmd s) = Some (tp, ts)
           /\ tp < s.[protocol_version]
           /\ (final o).[protocol_version] = tp - 1).
Proof.
  assert (H1 : int_min < (server_with_hint "29.4").[protocol_version]
               <= int_max) by (split; [reflexivity | discriminate]).
  assert (H2 : forall tp ts,
             parse_sub_protocol (shell_cmd (server_with_hint "29.4"))
             = Some (tp, ts) -> int_min < tp).
  { intros tp ts H. vm_compute in H. injection H as <- _. reflexivity. }
  split; [split; assumption |].
  apply (check_sub_protocol_effect (hdr := prerelease_h)
           (server_with_hint "29.4") H1 H2).
Defined.

(** X8 at a client whose [remote_protocol] was set beforehand. *)
Lemma preset_remote_skips_exchange_witness :
  let s := client_with_preset_remote in
  let s' := final (setup_protocol (hdr := rsync_h) 1 0 s) in
  s.[remote_protocol] <> 0
  /\ s'.[protocol_version] = s.[protocol_version]
  /\ s'.[remote_protocol] = s.[remote_protocol]
  /\ (sent s' = sent s
      \/ sent s' = sent s ++ [(1, s'.[checksum_seed])])
  /\ (pending s' = pending s
      \/ pending s = s'.[checksum_seed] :: pending s').
Proof.
  assert (H : client_with_preset_remote.[remote_protocol] <> 0)
    by discriminate.
  split; [exact H |].
  apply (preset_remote_skips_exchange (hdr := rsync_h) 1 0
           client_with_preset_remote H).
Defined.

(** X9 at a server of protocol 30 and a client of protocol 29 that talk to
    each other: both end at protocol 29 with the server's seed. *)
Lemma both_sides_agree_witness :
  let srv := server_meets_29 in
  let cli := client_of_server_meets_29 in
  let srv' := final (setup_protocol (hdr := rsync_h) 1 0 srv) in
  let cli' := final (setup_protocol (hdr := rsync_h) 1 0 cli) in
  (truthy srv.[am_server] = true
   /\ truthy cli.[am_server] = false
   /\ srv.[remote_protocol] = 0 /\ cli.[remote_protocol] = 0
   /\ truthy srv.[read_batch] = false /\ truthy cli.[read_batch] = false
   /\ sent srv = [] /\ sent cli = []
   /\ pending srv = map snd (sent cli')
   /\ pending cli = map snd (sent srv')
   /\ returned (setup_protocol (hdr := rsync_h) 1 0 srv) = true
   /\ returned (setup_protocol (hdr := rsync_h) 1 0 cli) = true)
  /\ srv'.[protocol_version] = cli'.[protocol_version]
  /\ srv'.[checksum_seed] = cli'.[checksum_seed]
  /\ sent srv' = [(1, cli'.[remote_protocol]); (1, srv'.[checksum_seed])]
  /\ sent cli' = [(1, srv'.[remote_protocol])].
Proof.
  split; [repeat split |].
  apply (both_sides_agree (hdr := rsync_h) 1 0 1 0 server_meets_29
           client_of_server_meets_29); reflexivity.
Defined.

(** X10 at a client at verbosity 4 whose server answers 24: the report and
    the advice, and the run returns. *)
Lemma returned_log_witness :
  let s := verbose_client_meets_24 in
  let s' := final (setup_protocol (hdr := rsync_h) 1 0 s) in
  returned (setup_protocol (hdr := rsync_h) 1 0 s) = true
  /\ log s' = log s ++ versions_report (hdr := rsync_h) s'
  /\ s'.[verbose] = s.[verbose] /\ s'.[am_server] = s.[am_server]
  /\ Forall (fun m => msg_code m = FINFO)
       (versions_report (hdr := rsync_h) s').
Proof.
  split; [reflexivity |].
  apply (returned_log (hdr := rsync_h) 1 0 verbose_client_meets_24).
  reflexivity.
Defined.

(** What that run logs. *)
Example verbose_client_meets_24_run :
  log (final (setup_protocol (hdr := rsync_h) 1 0 verbose_client_meets_24))
  = [Message FINFO fmt_versions [AStr (Some "Client"); AInt 24; AInt 24];
     Message FINFO fmt_very_old [AStr (Some "Server")]].
Proof. reflexivity. Qed.

(** X11 at protocol 28 against a peer at 28: the checks return. *)
Lemma check_versions_verdict_witness :
  let s := prune_at_28 in
  ((truthy s.[read_batch] = true ->
    s.[remote_protocol] <= s.[protocol_version])
   /\ 20 <= s.[remote_protocol] <= 40
   /\ 20 <= s.[protocol_version] <= 30)
  /\ returned (check_versions (hdr := rsync_h) s) = true.
Proof.
  assert (H : (truthy prune_at_28.[read_batch] = true ->
               prune_at_28.[remote_protocol]
               <= prune_at_28.[protocol_version])
              /\ 20 <= prune_at_28.[remote_protocol] <= 40
              /\ 20 <= prune_at_28.[protocol_version] <= 30).
  { split; [discriminate |].
    split; split; discriminate. }
  split; [exact H |].
  apply (check_versions_verdict (hdr := rsync_h) prune_at_28). exact H.
Defined.

(** X12 at a server without a configured seed: the seed is the time. *)
Lemma returned_seed_witness :
  let s := server_meets_29 in
  let s' := final (setup_protocol (hdr := rsync_h) 1 0 s) in
  (returned (setup_protocol (hdr := rsync_h) 1 0 s) = true
   /\ truthy s.[am_server] = true)
  /\ s'.[checksum_seed]
     = (if truthy s.[checksum_seed] then s.[checksum_seed]
        else wrap_int (clock s))
  /\ exists pre, sent s' = pre ++ [(1, s'.[checksum_seed])].
Proof.
  assert (H1 : returned (setup_protocol (hdr := rsync_h) 1 0 server_meets_29)
               = true) by reflexivity.
  assert (H2 : truthy server_meets_29.[am_server] = true) by reflexivity.
  split; [split; assumption |].
  destruct (returned_seed (hdr := rsync_h) 1 0 server_meets_29 H1)
    as [Hserver _].
  exact (Hserver H2).
Defined.

(** X13 at a server of protocol 30 whose client answers 29. *)
Lemma negotiation_succeeds_witness :
  let s := server_meets_29 in
  let w := (final (when (fun s => truthy s.[am_server]
                                  && negb (truthy s.[local_server]))
                     (check_sub_protocol (hdr := rsync_h))
                     s)).[protocol_version] in
  let v := Z.min w 29 in
  (s.[remote_protocol] = 0
   /\ truthy s.[read_batch] = false
   /\ writable s = true
   /\ pending s = [29]
   /\ (truthy s.[am_server] = false -> @nil Z <> [])
   /\ 20 <= 29 <= 40
   /\ 20 <= v <= 30
   /\ (v < 30 ->
       ~ (s.[max_delete] = 0 /\ s.[am_sender] <> 0)
       /\ (s.[preserve_acls] <> 0 -> s.[local_server] <> 0)
       /\ (s.[preserve_xattrs] <> 0 -> s.[local_server] <> 0))
   /\ (v < 29 ->
       s.[fuzzy_basis] = 0
       /\ (s.[basis_dir_cnt] = 0 \/ s.[inplace] = 0)
       /\ s.[basis_dir_cnt] <= 1
       /\ s.[prune_empty_dirs] = 0))
  /\ returned (setup_protocol (hdr := rsync_h) 1 0 s) = true
  /\ (final (setup_protocol (hdr := rsync_h) 1 0 s)).[protocol_version] = v
  /\ (final (setup_protocol (hdr := rsync_h) 1 0 s)).[remote_protocol] = 29.
Proof.
  cbv zeta.
  assert (H5 : truthy server_meets_29.[am_server] = false -> @nil Z <> [])
    by discriminate.
  assert (H6 : 20 <= 29 <= 40) by (split; discriminate).
  assert (H7 : 20 <= Z.min
                       (final (when (fun s => truthy s.[am_server]
                                              && negb (truthy s.[local_server]))
                                 (check_sub_protocol (hdr := rsync_h))
                                 server_meets_29)).[protocol_version] 29
               <= 30) by (split; discriminate).
  assert (H8 : Z.min
                 (final (when (fun s => truthy s.[am_server]
                                        && negb (truthy s.[local_server]))
                           (check_sub_protocol (hdr := rsync_h))
                           server_meets_29)).[protocol_version] 29 < 30 ->
               ~ (server_meets_29.[max_delete] = 0
                  /\ server_meets_29.[am_sender] <> 0)
               /\ (server_meets_29.[preserve_acls] <> 0 ->
                   server_meets_29.[local_server] <> 0)
               /\ (server_meets_29.[preserve_xattrs] <> 0 ->
                   server_meets_29.[local_server] <> 0)).
  { intros _. split; [intros [_ H]; apply H; reflexivity |].
    split; intros H; elim H; reflexivity. }
  assert (H9 : Z.min
                 (final (when (fun s => truthy s.[am_server]
                                        && negb (truthy s.[local_server]))
                           (check_sub_protocol (hdr := rsync_h))
                           server_meets_29)).[protocol_version] 29 < 29 ->
               server_meets_29.[fuzzy_basis] = 0
               /\ (server_meets_29.[basis_dir_cnt] = 0
                   \/ server_meets_29.[inplace] = 0)
               /\ server_meets_29.[basis_dir_cnt] <= 1
               /\ server_meets_29.[prune_empty_dirs] = 0).
  { intros _. split; [reflexivity |]. split; [left; reflexivity |].
    split; [discriminate | reflexivity]. }
  split.
  { split; [reflexivity |]. split; [reflexivity |]. split; [reflexivity |].
    split; [reflexivity |]. split; [exact H5 |]. split; [exact H6 |].
    split; [exact H7 |]. split; [exact H8 | exact H9]. }
  apply (negotiation_succeeds (hdr := rsync_h) 1 0 server_meets_29 29 []
           eq_refl eq_refl eq_refl eq_refl H5 H6 H7 H8 H9).
Defined.
